(** * XGBoost on GPU quickstart: the data-preparation pipeline

    A shallow embedding of the cells of [XGBoost_on_GPU_Quickstart.ipynb]
    that prepare the vehicles table and configure the two regressors.
    Every cell is a function on an explicit dataframe value; a cell that
    can raise returns [option], [None] standing for the exception.  The
    transfer through pandas and the one-hot encoder are described on part of
    their inputs only and return [Run]. *)

From Stdlib Require Import ZArith Ascii String DecimalString DecimalNat.
From stdpp Require Import base option list strings gmap sorting.

Local Open Scope string_scope.
Local Open Scope list_scope.

(** ** Data model *)

(** Snowflake column types.  [LongType] stands for the numeric columns
    (values are carried as integers), [BooleanType] for the types that are
    neither text nor number.  [DoubleType] is the type a column takes when it
    is written back from a pandas [float64] column; the entries met in such a
    column here are integers that a double holds exactly, carried as
    integers too. *)
Inductive DataType : Type :=
  | StringType
  | LongType
  | BooleanType
  | DoubleType.

Inductive Value : Type :=
  | VString (s : string)
  | VLong (z : Z)
  | VBool (b : bool).

(** A cell of a table; [None] is SQL NULL (a missing entry in pandas). *)
Abbreviation Cell := (option Value) (only parsing).

Record StructField : Type := mkField {
  name : string;
  datatype : DataType
}.

Abbreviation Row := (list Cell) (only parsing).

(** A dataframe: the schema (ordered fields) and the rows, each row listing
    its cells in schema order. *)
Record DataFrame : Type := mkDataFrame {
  schema : list StructField;
  rows : list Row
}.

Global Instance DataType_eq_dec : EqDecision DataType.
Proof. solve_decision. Defined.

Global Instance Value_eq_dec : EqDecision Value.
Proof. solve_decision. Defined.

Global Instance StructField_eq_dec : EqDecision StructField.
Proof. solve_decision. Defined.

Global Instance Value_countable : Countable Value.
Proof.
  refine (inj_countable'
    (λ v, match v with
          | VString s => inl s
          | VLong z => inr (inl z)
          | VBool b => inr (inr b)
          end)
    (λ x, match x with
          | inl s => VString s
          | inr (inl z) => VLong z
          | inr (inr b) => VBool b
          end) _).
  by intros [].
Defined.

(** [df.columns] *)
Definition columns (df : DataFrame) : list string := name <$> schema df.

(** [df.count()] *)
Definition count (df : DataFrame) : nat := length (rows df).

(** Position of the first column called [c]. *)
Fixpoint index_of (c : string) (cols : list string) : option nat :=
  match cols with
  | [] => None
  | c' :: cols' =>
      if decide (c' = c) then Some 0 else S <$> index_of c cols'
  end.

Definition col_index (c : string) (df : DataFrame) : option nat :=
  index_of c (columns df).

(** The cell of a row at a position; a position the row does not have reads
    as NULL. *)
Definition cell_at (r : Row) (i : nat) : Cell := default None (r !! i).

(** The values of one column, top to bottom. *)
Definition column_values (i : nat) (df : DataFrame) : list Cell :=
  (λ r, cell_at r i) <$> rows df.

(** A cell agrees with a column type when it is NULL or holds a value of that
    type. *)
Definition value_has_type (v : Value) (t : DataType) : bool :=
  match v, t with
  | VString _, StringType => true
  | VLong _, LongType => true
  | VLong _, DoubleType => true
  | VBool _, BooleanType => true
  | _, _ => false
  end.

Definition cell_has_type (c : Cell) (t : DataType) : bool :=
  match c with
  | None => true
  | Some v => value_has_type v t
  end.

(** Every row has as many cells as the schema has fields. *)
Definition rectangular (df : DataFrame) : Prop :=
  Forall (λ r : Row, length r = length (schema df)) (rows df).

(** ** Calls into the libraries *)

(** What the transfer through pandas and the call into the encoder do on an
    input: the call returns a value, it raises, or the input is one on which
    its behaviour is not described here ([Outside]).  Nothing is stated
    about an input that is [Outside]. *)
Inductive Run (A : Type) : Type :=
  | Returns (a : A)
  | Raises
  | Outside.

Arguments Returns {A} a.
Arguments Raises {A}.
Arguments Outside {A}.

(** ** Python strings and lists *)

Definition dquote : ascii := "034"%char.
Definition underscore : ascii := "_"%char.

Fixpoint find_index (c : ascii) (s : string) : option nat :=
  match s with
  | EmptyString => None
  | String a s' => if decide (a = c) then Some 0 else S <$> find_index c s'
  end.

(** [s.find(c)]: the position of the first [c] in [s], or -1. *)
Definition find (s : string) (c : ascii) : Z :=
  match find_index c s with
  | Some k => Z.of_nat k
  | None => (-1)%Z
  end.

(** A slice bound as Python normalises it: a negative bound counts from the
    end, and every bound is clipped to the string. *)
Definition clamp_index (len i : Z) : Z :=
  if (i <? 0)%Z then Z.max (i + len) 0 else Z.min i len.

(** [s[a:b]] *)
Definition slice (s : string) (a b : Z) : string :=
  let len := Z.of_nat (String.length s) in
  let a' := clamp_index len a in
  let b' := clamp_index len b in
  substring (Z.to_nat a') (Z.to_nat (b' - a')) s.

(** [f"{n}"] for a position [n]: its decimal digits. *)
Definition str (n : nat) : string := NilEmpty.string_of_uint (Nat.to_uint n).

(** [sorted(names)]: ascending in the order of [str]. *)
Definition sorted (l : list string) : list string := merge_sort String.le l.

(** [enumerate(l)] *)
Definition enumerate {A : Type} (l : list A) : list (nat * A) := imap pair l.

(** Python's [range(lo, hi)]. *)
Definition range (lo hi : nat) : list nat := seq lo (hi - lo).

Definition starts_with (c : ascii) (s : string) : bool :=
  match s with
  | String a _ => bool_decide (a = c)
  | EmptyString => false
  end.


Definition is_digit (a : ascii) : bool :=
  bool_decide (a ∈ ["0"; "1"; "2"; "3"; "4"; "5"; "6"; "7"; "8"; "9"]%char).

Fixpoint ends_with_digit (s : string) : bool :=
  match s with
  | EmptyString => false
  | String a EmptyString => is_digit a
  | String _ s' => ends_with_digit s'
  end.

(** ** Column names *)

(** Column names as the dataframe reports them: a name made of capital
    letters, digits, [_] and [$] that does not begin with a digit or [$] is
    shown bare; any other name is shown between double quotes, a double
    quote inside it doubled. *)
Definition is_upper (a : ascii) : bool :=
  let n := nat_of_ascii a in (65 <=? n)%nat && (n <=? 90)%nat.

Definition ident_start (a : ascii) : bool :=
  is_upper a || bool_decide (a = underscore).

Definition ident_part (a : ascii) : bool :=
  ident_start a || is_digit a || bool_decide (a = "$"%char).

Definition is_plain_identifier (s : string) : bool :=
  match s with
  | EmptyString => false
  | String a s' => ident_start a && forallb ident_part (list_ascii_of_string s')
  end.

Fixpoint escape_quotes (s : string) : string :=
  match s with
  | EmptyString => EmptyString
  | String a s' =>
      if decide (a = dquote) then String dquote (String dquote (escape_quotes s'))
      else String a (escape_quotes s')
  end.

Definition column_identifier (s : string) : string :=
  if is_plain_identifier s then s
  else String dquote (escape_quotes s +:+ String dquote "").

(** ** Column selection: [df.drop], [df.select] *)

(** The elements of [l] whose mask bit is set. *)
Fixpoint keep_masked {A : Type} (mask : list bool) (l : list A) : list A :=
  match mask, l with
  | b :: mask', x :: l' =>
      if b then x :: keep_masked mask' l' else keep_masked mask' l'
  | _, _ => []
  end.

(** [df.drop(names)]: the columns whose name is not listed, in order.  A name
    that is no column is ignored; dropping every column raises. *)
Definition df_drop (names : list string) (df : DataFrame) : option DataFrame :=
  let mask := (λ f, bool_decide (name f ∉ names)) <$> schema df in
  let kept := keep_masked mask (schema df) in
  if decide (kept = []) then None
  else Some {| schema := kept; rows := keep_masked mask <$> rows df |}.

(** Resolution of a column name: it has to denote exactly one column (the
    engine rejects an unknown name and an ambiguous one). *)
Definition resolve (c : string) (df : DataFrame) : option nat :=
  i ← col_index c df;
  if decide (c ∈ drop (S i) (columns df)) then None else Some i.

(** [df.select(names)]: the named columns, in the order asked for. *)
Definition df_select (names : list string) (df : DataFrame) : option DataFrame :=
  idxs ← mapM (λ c, resolve c df) names;
  Some {| schema := omap (λ i, schema df !! i) idxs;
          rows := (λ r, cell_at r <$> idxs) <$> rows df |}.

(** ** Cell [filter_to_100k]:  [df = df.filter(col('PRICE') < 100000)] *)

(** SQL comparison of a cell with an integer literal.  The result is
    three-valued: a NULL operand gives NULL. *)
Definition sql_lt (c : Cell) (lit : Z) : option bool :=
  match c with
  | Some (VLong p) => Some (p <? lit)%Z
  | _ => None
  end.

(** [WHERE] keeps a row only when the predicate is TRUE; rows on which it is
    FALSE or NULL are dropped. *)
Definition where_true (p : option bool) : bool :=
  match p with
  | Some true => true
  | _ => false
  end.

(** [df.filter(cond)]: same schema, the rows on which [cond] is TRUE, in
    order. *)
Definition df_filter (cond : Row → option bool) (df : DataFrame) : DataFrame :=
  {| schema := schema df;
     rows := filter (λ r, where_true (cond r) = true) (rows df) |}.

Definition filter_to_100k (df : DataFrame) : option DataFrame :=
  i ← resolve "PRICE" df;
  Some (df_filter (λ r, sql_lt (cell_at r i) 100000%Z) df).

(** ** Cell [drop_columns] *)

(** [drop_cols] and [df = df.drop(drop_cols)] *)
Definition drop_cols : list string :=
  ["ID"; "URL"; "REGION_URL"; "IMAGE_URL"; "DESCRIPTION"; "VIN";
   "POSTING_DATE"; "COUNTY"].

Definition drop_columns (df : DataFrame) : option DataFrame :=
  df_drop drop_cols df.

(** ** Cell [fill_null] *)

(** The Python literals handed to [fillna]. *)
Inductive PyLit : Type :=
  | PyStr (s : string)
  | PyInt (z : Z).

Definition lit_value (v : PyLit) : Value :=
  match v with
  | PyStr s => VString s
  | PyInt z => VLong z
  end.

(** [fillna] replaces NULLs only in columns whose type agrees with the type
    of the replacement value: a [str] fills text columns, an [int] fills
    numeric columns; on any other column the replacement is skipped. *)
Definition lit_matches (v : PyLit) (t : DataType) : bool :=
  match v, t with
  | PyStr _, StringType => true
  | PyInt _, LongType => true
  | PyInt _, DoubleType => true
  | _, _ => false
  end.

(** SQL [COALESCE(c, v)]. *)
Definition coalesce (c : Cell) (v : Value) : Cell :=
  match c with
  | Some x => Some x
  | None => Some v
  end.

Definition fill_cell (value : PyLit) (subset : list string)
    (f : StructField) (c : Cell) : Cell :=
  if decide (name f ∈ subset) then
    if lit_matches value (datatype f) then coalesce c (lit_value value) else c
  else c.

(** [df.fillna(value, subset=subset)]; a name in [subset] that is no column
    raises. *)
Definition fillna (value : PyLit) (subset : list string) (df : DataFrame)
    : option DataFrame :=
  if decide (Forall (λ c, c ∈ columns df) subset) then
    Some {| schema := schema df;
            rows := (λ r, imap (λ j c,
                       match schema df !! j with
                       | Some f => fill_cell value subset f c
                       | None => c
                       end) r) <$> rows df |}
  else None.

(** [string_type = df.select('REGION').schema[0].datatype] *)
Definition string_type (df : DataFrame) : option DataType :=
  region ← df_select ["REGION"] df;
  datatype <$> head (schema region).

(** [string_cols = df.select([col.name for col in df.schema
                              if col.datatype == string_type]).columns] *)
Definition string_cols (df : DataFrame) : option (list string) :=
  t ← string_type df;
  columns <$>
    df_select (name <$> filter (λ f, datatype f = t) (schema df)) df.

(** [non_string_cols = df.drop(string_cols).columns] *)
Definition non_string_cols (df : DataFrame) : option (list string) :=
  sc ← string_cols df;
  columns <$> df_drop sc df.

Definition fill_null (df : DataFrame) : option DataFrame :=
  sc ← string_cols df;
  nsc ← non_string_cols df;
  df1 ← fillna (PyStr "NA") sc df;
  fillna (PyInt 0) nsc df1.

(** ** Cell [infrequent_category_casting] *)

(** The values that are present in a column (pandas drops the missing ones
    before counting). *)
Definition dropna (col : list Cell) : list Value := omap id col.

(** Distinct values in order of first appearance. *)
Fixpoint uniques (l : list Value) : list Value :=
  match l with
  | [] => []
  | v :: l' => v :: filter (λ w, w ≠ v) (uniques l')
  end.

Definition occurrences (v : Value) (l : list Value) : nat :=
  length (filter (λ w, w = v) l).

(** Order of [value_counts]: larger counts first. *)
Definition count_ge (a b : Value * nat) : Prop := (b.2 ≤ a.2)%nat.

Global Instance count_ge_dec : RelDecision count_ge.
Proof. intros a b. unfold count_ge. apply _. Defined.

Global Instance count_ge_trans : Transitive count_ge.
Proof. intros a b c. unfold count_ge. lia. Qed.

Global Instance count_ge_total : Total count_ge.
Proof. intros a b. unfold count_ge. lia. Qed.

(** [Series.value_counts()]: every distinct present value with the number of
    times it occurs, most frequent first.  Among values with equal counts
    the order is the one the merge sort leaves, which need not be the order
    pandas gives them; nothing below depends on the order among equal
    counts. *)
Definition value_counts (col : list Cell) : list (Value * nat) :=
  let vals := dropna col in
  merge_sort count_ge ((λ v, (v, occurrences v vals)) <$> uniques vals).

(** [top_n_models = df_pd.MODEL.value_counts().keys()[0:1000]] *)
Definition top_n_models (col : list Cell) : list Value :=
  take 1000 ((value_counts col).*1).

Definition INFREQUENT : Value := VString "INFREQUENT".

(** [lambda x: x if x in top_n_models else 'INFREQUENT'];  a missing entry is
    no key of the index. *)
Definition recode (top : list Value) (x : Cell) : Cell :=
  match x with
  | Some v => if decide (v ∈ top) then Some v else Some INFREQUENT
  | None => Some INFREQUENT
  end.

(** The two lines of the cell that work on the pandas frame [df_pd]: the
    assignment to [df_pd['MODEL']] replaces that column in place.  The
    argument is the pandas frame; the transfers of the table to pandas and
    back are [to_pandas] and [create_dataframe] below. *)
Definition infrequent_category_casting (df : DataFrame) : option DataFrame :=
  i ← resolve "MODEL" df;
  let top := top_n_models (column_values i df) in
  Some {| schema := schema df;
          rows := (λ r, <[i := recode top (cell_at r i)]> r) <$> rows df |}.

(** *** The transfer through pandas *)

(** The double nearest to an integer, ties going to the even significand.  A
    double has 53 significant bits: an integer of more bits loses the low
    ones. *)
Definition round_to_double (z : Z) : Z :=
  let a := Z.abs z in
  let e := (Z.log2 a - 52)%Z in
  if (e <=? 0)%Z then z
  else
    let q := Z.shiftr a e in
    let rest := Z.land a (Z.ones e) in
    let half := Z.shiftl 1 (e - 1) in
    let q' := if (half <? rest)%Z || ((rest =? half)%Z && Z.odd q)
              then (q + 1)%Z else q in
    (Z.sgn z * Z.shiftl q' e)%Z.

Definition is_int64 (z : Z) : bool :=
  (- 2 ^ 63 <=? z)%Z && (z <? 2 ^ 63)%Z.

(** pandas has no missing integer: a numeric column that holds a missing
    entry arrives as a [float64] column. *)
Definition as_float64 (df : DataFrame) (j : nat) (f : StructField) : bool :=
  bool_decide (datatype f = LongType) &&
  bool_decide (None ∈ column_values j df).

Definition to_float64 (c : Cell) : Cell :=
  match c with
  | Some (VLong z) => Some (VLong (round_to_double z))
  | _ => c
  end.

(** An entry a text column or a column of 64-bit integers can hold. *)
Definition transferable_cell (f : StructField) (c : Cell) : bool :=
  match c, datatype f with
  | None, _ => true
  | Some (VString _), StringType => true
  | Some (VLong z), LongType => is_int64 z
  | _, _ => false
  end.

(** The tables whose transfer is described below: there is a row; the
    column names are plain and distinct; every column is a text column or a
    column of 64-bit integers, has an entry in every row and at least one
    entry that is not missing. *)
Definition transferable (df : DataFrame) : bool :=
  bool_decide (rows df ≠ []) &&
  bool_decide (NoDup (columns df)) &&
  forallb is_plain_identifier (columns df) &&
  forallb (λ f, bool_decide (datatype f ∈ [StringType; LongType]))
          (schema df) &&
  forallb (λ r : Row, bool_decide (length r = length (schema df)) &&
                      forallb id (zip_with transferable_cell (schema df) r))
          (rows df) &&
  forallb (λ j, bool_decide (Exists is_Some (column_values j df)))
          (seq 0 (length (schema df))).

(** The pandas frame of a table.  A pandas frame is written as a table too:
    a column has the type it is written back with ([object] holding text as
    [StringType], [int64] as [LongType], [float64] as [DoubleType]) and a
    missing entry ([None], [NaN]) is [None]. *)
Definition pandas_frame (df : DataFrame) : DataFrame :=
  {| schema := imap (λ j f, if as_float64 df j f
                            then mkField (name f) DoubleType else f)
                    (schema df);
     rows := (λ r, imap (λ j c,
                match schema df !! j with
                | Some f => if as_float64 df j f then to_float64 c else c
                | None => c
                end) r) <$> rows df |}.

(** [df_pd = df.to_pandas()] *)
Definition to_pandas (df : DataFrame) : Run DataFrame :=
  if transferable df then Returns (pandas_frame df) else Outside.

(** [df = session.create_dataframe(df_pd)] *)
Definition create_dataframe (df_pd : DataFrame) : DataFrame := df_pd.

(** The cell: to pandas, the assignment, and back. *)
Definition infrequent_category_casting_cell (df : DataFrame)
    : Run DataFrame :=
  match to_pandas df with
  | Returns df_pd =>
      match infrequent_category_casting df_pd with
      | Some df_pd => Returns (create_dataframe df_pd)
      | None => Raises
      end
  | Raises => Raises
  | Outside => Outside
  end.

(** ** Cell [increase_data_size]:
    [for i in range(1,3): df = df.unionAll(df)] *)

(** [a.unionAll(b)]: the rows of [a] followed by those of [b], duplicates
    kept; the result carries the schema of [a]. *)
Definition unionAll (a b : DataFrame) : DataFrame :=
  {| schema := schema a; rows := rows a ++ rows b |}.

(** The loop, over an arbitrary list of iteration indices. *)
Definition union_loop (idxs : list nat) (df : DataFrame) : DataFrame :=
  foldl (λ d _, unionAll d d) df idxs.

Definition increase_data_size (df : DataFrame) : DataFrame :=
  union_loop (range 1 3) df.

(** ** Cell [one_hot_encoding] *)

(** The text of a category inside a generated column name: the encoder
    writes a double quote of the category as a single quote. *)
Fixpoint single_quotes (s : string) : string :=
  match s with
  | EmptyString => EmptyString
  | String a s' =>
      String (if decide (a = dquote) then "'"%char else a) (single_quotes s')
  end.

(** The text held by an entry of a text column; a missing entry holds
    none. *)
Definition text_of (c : Cell) : option string :=
  match c with
  | Some (VString s) => Some s
  | _ => None
  end.

(** [fit]: the categories of a text column are its distinct values,
    sorted. *)
Definition categories (col : list string) : list string :=
  merge_sort String.le (remove_dups col).

(** One indicator cell: 1 when the entry is the category, else 0. *)
Definition indicator (c : Cell) (v : string) : Cell :=
  Some (VLong (if decide (c = Some (VString v)) then 1 else 0)).

(** The tables on which the encoder's output is described below: at least
    one input column is given, every input column has a plain name and is a
    text column, and every row has a cell for every column. *)
Definition encodable (OHE_COLS : list string) (idxs : list nat)
    (df : DataFrame) : bool :=
  bool_decide (OHE_COLS ≠ []) &&
  forallb is_plain_identifier OHE_COLS &&
  forallb (λ i, bool_decide (datatype <$> schema df !! i = Some StringType))
          idxs &&
  forallb (λ r : Row, bool_decide (length r = length (schema df))) (rows df).

(** [OneHotEncoder(input_cols=OHE_COLS, output_cols=OHE_COLS,
                   drop_input_cols=True).fit(df).transform(df)]:
    [fit] raises when an input column is no column of the table and when the
    table has no rows.  [transform] returns, for each input column in turn
    and each of its categories, an indicator column called
    [<column>_<category>], and after these the columns that are no input
    columns, in their order; the input columns are dropped.  An input column
    with a missing entry is [Outside] (the name of the column the encoder
    makes for the missing entries is not described here), and so is an input
    on which two columns of the result would carry one name. *)
Definition one_hot_encoding (OHE_COLS : list string) (df : DataFrame)
    : Run DataFrame :=
  match mapM (λ c, resolve c df) OHE_COLS with
  | None => Raises
  | Some idxs =>
      if decide (rows df = []) then Raises
      else
        match mapM (λ i, mapM text_of (column_values i df)) idxs with
        | None => Outside
        | Some texts =>
            let fitted : list (string * (nat * list string)) :=
              zip OHE_COLS (zip idxs (categories <$> texts)) in
            let new_fields : list StructField :=
              fitted ≫= (λ cf, (λ v, mkField
                           (column_identifier
                              (cf.1 +:+ "_" +:+ single_quotes v)) LongType)
                         <$> cf.2.2) in
            let new_cells (r : Row) : Row :=
              fitted ≫= (λ cf, indicator (cell_at r cf.2.1) <$> cf.2.2) in
            let mask := (λ f, bool_decide (name f ∉ OHE_COLS)) <$> schema df in
            let transformed_df :=
              {| schema := new_fields ++ keep_masked mask (schema df);
                 rows := (λ r, new_cells r ++ keep_masked mask r)
                           <$> rows df |} in
            if encodable OHE_COLS idxs df
               && bool_decide (NoDup (columns transformed_df))
            then Returns transformed_df
            else Outside
        end
  end.

(** ** Cell [rename_columns] *)

(** The body of the loop: the entry written for column [col] at position
    [n]. *)
Definition new_name (n : nat) (col : string) : string :=
  let double_quote_spot := find col dquote in
  if decide (double_quote_spot = 0%Z) then
    slice col (double_quote_spot + 1) (find col underscore) +:+ "__" +:+ str n
  else col.

Definition renaming_dict (cols : list string) : gmap string string :=
  foldl (λ d nc, <[nc.2 := new_name nc.1 nc.2]> d) ∅ (enumerate cols).

(** [df.rename(d)]: a column whose name is a key of [d] takes the name [d]
    gives; positions and cells stay. *)
Definition df_rename (d : gmap string string) (df : DataFrame) : DataFrame :=
  {| schema := (λ f, mkField (default (name f) (d !! name f)) (datatype f))
                 <$> schema df;
     rows := rows df |}.

Definition rename_columns (transformed_df : DataFrame) : option DataFrame :=
  let d := renaming_dict (columns transformed_df) in
  let df_renamed := df_rename d transformed_df in
  df_select (sorted (columns df_renamed)) df_renamed.

(** The names of [df_renamed], position by position. *)
Definition renamed_columns (cols : list string) : list string :=
  (λ c, default c (renaming_dict cols !! c)) <$> cols.

(** ** The Encoder stage: cells [one_hot_encoding] and [rename_columns] *)

Definition encoder (OHE_COLS : list string) (df : DataFrame)
    : Run DataFrame :=
  match one_hot_encoding OHE_COLS df with
  | Returns transformed_df =>
      match rename_columns transformed_df with
      | Some df_renamed => Returns df_renamed
      | None => Raises
      end
  | Raises => Raises
  | Outside => Outside
  end.

(** ** Cell [model_definition] *)

(** The keyword arguments given to [XGBRegressor(...)]. *)
Record XGBRegressor : Type := mkXGBRegressor {
  input_cols : list string;
  label_cols : list string;
  output_cols : string;
  tree_method : string;
  predictor : string;
  n_estimators : Z
}.

Definition cpu_snowpark_xgb (train : DataFrame) : option XGBRegressor :=
  inputs ← df_drop ["PRICE"] train;
  labels ← df_select ["PRICE"] train;
  Some {| input_cols := columns inputs;
          label_cols := columns labels;
          output_cols := "PREDICTED_PRICE";
          tree_method := "hist";
          predictor := "cpu_predictor";
          n_estimators := 1000 |}.

Definition gpu_snowpark_xgb (train : DataFrame) : option XGBRegressor :=
  inputs ← df_drop ["PRICE"] train;
  labels ← df_select ["PRICE"] train;
  Some {| input_cols := columns inputs;
          label_cols := columns labels;
          output_cols := "PREDICTED_PRICE";
          tree_method := "gpu_hist";
          predictor := "gpu_predictor";
          n_estimators := 1000 |}.

(** A configuration with the two compute-target parameters replaced. *)
Definition with_compute_target (tm pr : string) (m : XGBRegressor)
    : XGBRegressor :=
  {| input_cols := input_cols m;
     label_cols := label_cols m;
     output_cols := output_cols m;
     tree_method := tm;
     predictor := pr;
     n_estimators := n_estimators m |}.

(** ** Statements about the cells, as predicates *)

(** A row of [df] is removed when it does not occur in [df']. *)
Definition removed (df df' : DataFrame) (r : Row) : Prop :=
  r ∈ rows df ∧ r ∉ rows df'.

(** "The filter removes exactly the rows whose price is at least [lim]". *)
Definition removes_exactly_at_least (lim : Z) (i : nat)
    (df df' : DataFrame) : Prop :=
  ∀ r, r ∈ rows df →
    (removed df df' r ↔ ∃ p, cell_at r i = Some (VLong p) ∧ (lim ≤ p)%Z).


(** "If no input value lies outside the top values, the sentinel does not
    appear in the output column." *)
Definition sentinel_absent_when_all_frequent (i : nat)
    (df df' : DataFrame) : Prop :=
  (∀ x, x ∈ column_values i df →
        x ∈ Some <$> top_n_models (column_values i df)) →
  Some INFREQUENT ∉ column_values i df'.


(** "No two columns are mapped to the same output name." *)
Definition renaming_injective (cols : list string) : Prop :=
  ∀ i j ci cj, cols !! i = Some ci → cols !! j = Some cj → i ≠ j →
    renaming_dict cols !! ci ≠ renaming_dict cols !! cj.


(** ** Sample tables *)

(** A one-row table whose price is NULL. *)
Definition null_price_df : DataFrame :=
  {| schema := [mkField "PRICE" LongType; mkField "REGION" StringType];
     rows := [[None; Some (VString "auburn")]] |}.

(** A table with a boolean column next to the text and numeric ones. *)
Definition flagged_df : DataFrame :=
  {| schema := [mkField "REGION" StringType; mkField "PRICE" LongType;
                mkField "SALVAGE" BooleanType];
     rows := [[None; None; None];
              [Some (VString "auburn"); Some (VLong 4500); Some (VBool false)]] |}.

(** A table in which a car model is literally called INFREQUENT. *)
Definition infrequent_model_df : DataFrame :=
  {| schema := [mkField "MODEL" StringType; mkField "PRICE" LongType];
     rows := [[Some (VString "INFREQUENT"); Some (VLong 9000)]] |}.

(** A table with a numeric column that holds a missing entry and an integer
    of 54 bits. *)
Definition large_price_df : DataFrame :=
  {| schema := [mkField "MODEL" StringType; mkField "PRICE" LongType];
     rows := [[Some (VString "civic"); Some (VLong 9007199254740993)];
              [Some (VString "f-150"); None]] |}.

(** A cleaned table with one text column. *)
Definition vehicles_df : DataFrame :=
  {| schema := [mkField "REGION" StringType; mkField "PRICE" LongType];
     rows := [[Some (VString "auburn"); Some (VLong 4500)];
              [Some (VString "NA"); Some (VLong 9000)];
              [Some (VString "auburn"); Some (VLong 100)]] |}.

(** A cleaned table with a region called [_0] and a region whose name needs
    quoting. *)
Definition underscore_region_df : DataFrame :=
  {| schema := [mkField "REGION" StringType; mkField "PRICE" LongType];
     rows := [[Some (VString "A b"); Some (VLong 4500)];
              [Some (VString "_0"); Some (VLong 9000)]] |}.

(** The columns of that table after one-hot encoding: the indicator of
    region [A b], whose name needs quoting, the indicator of region [_0],
    then PRICE. *)
Definition underscore_region_cols : list string :=
  [String dquote ("REGION_A b" +:+ String dquote ""); "REGION__0"; "PRICE"].

(** The one-hot encoding of [underscore_region_df]. *)
Definition underscore_region_encoded : DataFrame :=
  {| schema := [mkField (String dquote ("REGION_A b" +:+ String dquote ""))
                  LongType;
                mkField "REGION__0" LongType; mkField "PRICE" LongType];
     rows := [[Some (VLong 1); Some (VLong 0); Some (VLong 4500)];
              [Some (VLong 0); Some (VLong 1); Some (VLong 9000)]] |}.

(** The one-hot encoding of [vehicles_df], and the table the renaming cell
    makes of it. *)
Definition vehicles_encoded : DataFrame :=
  {| schema := [mkField "REGION_NA" LongType;
                mkField (String dquote ("REGION_auburn" +:+ String dquote ""))
                  LongType;
                mkField "PRICE" LongType];
     rows := [[Some (VLong 0); Some (VLong 1); Some (VLong 4500)];
              [Some (VLong 1); Some (VLong 0); Some (VLong 9000)];
              [Some (VLong 0); Some (VLong 1); Some (VLong 100)]] |}.

Definition vehicles_renamed : DataFrame :=
  {| schema := [mkField "PRICE" LongType; mkField "REGION_NA" LongType;
                mkField "REGION__1" LongType];
     rows := [[Some (VLong 4500); Some (VLong 0); Some (VLong 1)];
              [Some (VLong 9000); Some (VLong 1); Some (VLong 0)];
              [Some (VLong 100); Some (VLong 0); Some (VLong 1)]] |}.

(** A cleaned table with a region called [_1] next to a region whose
    indicator column is quoted. *)
Definition colliding_region_df : DataFrame :=
  {| schema := [mkField "REGION" StringType; mkField "PRICE" LongType];
     rows := [[Some (VString "auburn"); Some (VLong 4500)];
              [Some (VString "_1"); Some (VLong 9000)]] |}.

(** Two distinct column names that the renaming sends to one name: the
    indicator columns of that table. *)
Definition colliding_cols : list string :=
  ["REGION__1"; String dquote ("REGION_auburn" +:+ String dquote "")].

(** A small training table after encoding. *)
Definition train_df : DataFrame :=
  {| schema := [mkField "ODOMETER" LongType; mkField "PRICE" LongType;
                mkField "REGION__2" LongType];
     rows := [[Some (VLong 120000); Some (VLong 4500); Some (VLong 1)]] |}.

(** The two [fillna] passes of cell [fill_null] as one map over the cells,
    for given column lists. *)
Definition fill_both (sc nsc : list string) (df : DataFrame) : DataFrame :=
  {| schema := schema df;
     rows := (λ r, imap (λ j c,
                match schema df !! j with
                | Some f =>
                    fill_cell (PyInt 0) nsc f (fill_cell (PyStr "NA") sc f c)
                | None => c
                end) r) <$> rows df |}.

(** ** The cells in sequence *)

(** The Cleaner: cells [filter_to_100k], [drop_columns] and [fill_null], each
    run on the table the previous one left in [df]. *)
Definition cleaner (df : DataFrame) : option DataFrame :=
  df ← filter_to_100k df;
  df ← drop_columns df;
  fill_null df.


(** A raw table: an identifier column, a missing price, a missing region, a
    price above the limit. *)
Definition raw_df : DataFrame :=
  {| schema := [mkField "ID" LongType; mkField "REGION" StringType;
                mkField "PRICE" LongType; mkField "MODEL" StringType];
     rows := [[Some (VLong 1); Some (VString "auburn"); Some (VLong 4500);
               Some (VString "civic")];
              [Some (VLong 2); None; Some (VLong 0); None];
              [Some (VLong 3); Some (VString "reno"); None;
               Some (VString "f-150")];
              [Some (VLong 4); Some (VString "reno"); Some (VLong 250000);
               Some (VString "f-150")]] |}.


(** A table with 1001 different models, each occurring once. *)
Definition many_models_df : DataFrame :=
  {| schema := [mkField "MODEL" StringType];
     rows := (λ n, [Some (VString (str n))]) <$> seq 0 1001 |}.


(* ================================================================== *)
(** * Properties *)

(** Decidable facts about concrete tables are settled by evaluation. *)
Ltac by_evaluation := apply (bool_decide_unpack _); vm_compute; exact I.

(** ** The price filter *)

Lemma index_of_lookup c cols i :
  index_of c cols = Some i → cols !! i = Some c.
Proof.
  revert i. induction cols as [|c' cols IH]; intros i; simpl; [done|].
  case_decide; [by intros [= <-]; subst|].
  destruct (index_of c cols) eqn:E; intros [= <-]. by apply IH.
Qed.

Lemma index_of_is_Some c cols : c ∈ cols → is_Some (index_of c cols).
Proof.
  induction 1 as [|? c' ? ? IH]; simpl.
  - rewrite decide_True by done. eauto.
  - case_decide; [eauto|]. destruct IH as [i ->]. eauto.
Qed.

Lemma filter_to_100k_rows df df' i :
  resolve "PRICE" df = Some i →
  filter_to_100k df = Some df' →
  ∀ r, r ∈ rows df' ↔
       r ∈ rows df ∧ ∃ p, cell_at r i = Some (VLong p) ∧ (p < 100000)%Z.
Proof.
  unfold filter_to_100k. intros -> [= <-] r; simpl.
  rewrite list_elem_of_filter. unfold sql_lt, where_true.
  split.
  - intros [Hc Hr]; split; [done|].
    destruct (cell_at r i) as [[s|p|b]|]; try done.
    exists p; split; [done|]. destruct (Z.ltb_spec p 100000); [lia|done].
  - intros [Hr (p & -> & Hp)]; split; [|done].
    destruct (Z.ltb_spec p 100000); [done|lia].
Qed.

(** C1 (as amended).  When PRICE names a column, at position [i], the filter
    succeeds and keeps the schema; every remaining row is a row of the input
    whose PRICE is present and strictly below 100000; and a row whose PRICE
    is NULL or a number is removed exactly when that PRICE is NULL or at
    least 100000. *)
Theorem filter_to_100k_spec (df : DataFrame) (i : nat) :
  resolve "PRICE" df = Some i →
  ∃ df',
    filter_to_100k df = Some df' ∧
    schema df' = schema df ∧
    (∀ r, r ∈ rows df' →
       r ∈ rows df ∧ ∃ p, cell_at r i = Some (VLong p) ∧ (p < 100000)%Z) ∧
    (∀ r, r ∈ rows df → cell_has_type (cell_at r i) LongType = true →
       (removed df df' r ↔
          cell_at r i = None ∨
          ∃ p, cell_at r i = Some (VLong p) ∧ (100000 ≤ p)%Z)).
Proof.
  intros Hi.
  assert (Hf : filter_to_100k df =
               Some (df_filter (λ r, sql_lt (cell_at r i) 100000%Z) df)).
  { unfold filter_to_100k. by rewrite Hi. }
  eexists. split; [exact Hf|]. split; [done|].
  pose proof (filter_to_100k_rows _ _ _ Hi Hf) as Hrows.
  split.
  - intros r Hr. by apply Hrows.
  - intros r Hr Hty. unfold removed. rewrite Hrows. split.
    + intros [_ Hn].
      destruct (cell_at r i) as [[s|p|b]|] eqn:Hc; simpl in Hty; try done;
        [|by left].
      right. exists p. split; [done|].
      destruct (Z.lt_ge_cases p 100000) as [Hlt|Hge]; [|lia].
      exfalso. apply Hn. eauto.
    + intros Hc. split; [done|]. intros [_ (p & Hp & Hlt)].
      destruct Hc as [Hc|(q & Hq & Hge)]; [congruence|].
      rewrite Hp in Hq. injection Hq as ->. lia.
Qed.

Lemma filter_to_100k_spec_witness :
  resolve "PRICE" null_price_df = Some 0 ∧
  ∃ df', filter_to_100k null_price_df = Some df' ∧
         schema df' = schema null_price_df ∧
         ∀ r, r ∈ rows df' → r ∈ rows null_price_df.
Proof.
  assert (H : resolve "PRICE" null_price_df = Some 0) by reflexivity.
  destruct (filter_to_100k_spec null_price_df 0 H) as (df' & H1 & H2 & H3 & _).
  split; [exact H|]. exists df'. split; [exact H1|]. split; [exact H2|].
  intros r Hr. by apply H3.
Defined.

(** C1 (as stated) fails on a row whose PRICE is NULL: the comparison is
    NULL there, the row is removed, and its PRICE is not at least 100000. *)
Lemma filter_to_100k_null_price_removed :
  ∃ df',
    filter_to_100k null_price_df = Some df' ∧
    ¬ removes_exactly_at_least 100000 0 null_price_df df'.
Proof.
  eexists. split; [reflexivity|].
  intros H.
  destruct (H [None; Some (VString "auburn")]) as [Hex _].
  { simpl. apply list_elem_of_here. }
  destruct Hex as (p & Hp & _); [|discriminate Hp].
  split; simpl; [apply list_elem_of_here | apply not_elem_of_nil].
Qed.

(** ** The volume amplifier *)

Lemma unionAll_self_count df : count (unionAll df df) = 2 * count df.
Proof. unfold count, unionAll; simpl. rewrite length_app. lia. Qed.

Lemma union_loop_count idxs df :
  count (union_loop idxs df) = count df * 2 ^ length idxs.
Proof.
  unfold union_loop. revert df.
  induction idxs as [|i idxs IH]; intros df; simpl.
  - lia.
  - rewrite IH, unionAll_self_count.
    replace (2 ^ S (length idxs)) with (2 * 2 ^ length idxs)
      by (rewrite Nat.pow_succ_r'; lia).
    lia.
Qed.

Lemma union_loop_schema idxs df : schema (union_loop idxs df) = schema df.
Proof.
  unfold union_loop. revert df.
  induction idxs as [|i idxs IH]; intros df; simpl; [done|]. by rewrite IH.
Qed.

Lemma range_length lo hi : length (range lo hi) = hi - lo.
Proof. unfold range. by rewrite length_seq. Qed.

(** C4.  [k] passes of the self-union loop multiply the row count by [2^k];
    the cell runs the loop over [range(1,3)], two passes, so its output has
    four times the rows of its input (and the same schema). *)
Theorem increase_data_size_count (df : DataFrame) :
  (∀ k, count (union_loop (range 1 (1 + k)) df) = count df * 2 ^ k) ∧
  length (range 1 3) = 2 ∧
  count (increase_data_size df) = 4 * count df ∧
  schema (increase_data_size df) = schema df.
Proof.
  split; [|split; [|split]].
  - intros k. rewrite union_loop_count, range_length.
    by replace (1 + k - 1) with k by lia.
  - reflexivity.
  - unfold increase_data_size. rewrite union_loop_count. simpl. lia.
  - apply union_loop_schema.
Qed.

(** ** Name resolution and column selection *)

Lemma resolve_lookup c df i :
  resolve c df = Some i → columns df !! i = Some c.
Proof.
  unfold resolve, col_index. destruct (index_of c (columns df)) eqn:E; [|done].
  simpl. case_decide; [done|]. intros [= <-]. by apply index_of_lookup.
Qed.

Lemma resolve_field c df i :
  resolve c df = Some i → ∃ f, schema df !! i = Some f ∧ name f = c.
Proof.
  intros H%resolve_lookup. unfold columns in H.
  rewrite list_lookup_fmap in H.
  destruct (schema df !! i) as [f|]; [|done]. injection H as H. eauto.
Qed.

Lemma resolve_NoDup c df :
  NoDup (columns df) → c ∈ columns df →
  ∃ i, resolve c df = Some i ∧ columns df !! i = Some c.
Proof.
  intros Hnd Hin. destruct (index_of_is_Some _ _ Hin) as [i Hi].
  pose proof (index_of_lookup _ _ _ Hi) as Hl.
  exists i. split; [|done]. unfold resolve, col_index. rewrite Hi; simpl.
  rewrite decide_False; [done|].
  intros [j Hj]%list_elem_of_lookup. rewrite lookup_drop in Hj.
  pose proof (NoDup_lookup _ _ _ _ Hnd Hl Hj). lia.
Qed.

Lemma df_select_columns names df d :
  df_select names df = Some d → columns d = names.
Proof.
  unfold df_select. destruct (mapM _ names) as [idxs|] eqn:E; [|done].
  simpl. intros [= <-]. unfold columns at 1; simpl.
  apply mapM_Some in E. induction E as [|c i names idxs Hc _ IH]; [done|].
  destruct (resolve_field _ _ _ Hc) as (f & Hf & Hn).
  cbn [omap list_omap]. rewrite Hf, fmap_cons. by rewrite IH, Hn.
Qed.



(** ** The fill step *)


(** The column lists of the cell, on a table with distinct column names in
    which REGION has type [t]. *)
Section string_columns.

Context (df : DataFrame) (t : DataType).
Hypothesis Hnd : NoDup (columns df).
Hypothesis Hreg : mkField "REGION" t ∈ schema df.






End string_columns.




(** ** The cardinality reducer: frame *)

Lemma column_values_lookup i df k :
  column_values i df !! k = (λ r, cell_at r i) <$> rows df !! k.
Proof. unfold column_values. by rewrite list_lookup_fmap. Qed.


(** *** The transfer through pandas *)


Lemma pandas_frame_columns df : columns (pandas_frame df) = columns df.
Proof.
  unfold columns, pandas_frame; cbn [schema]. apply list_eq. intros j.
  rewrite !list_lookup_fmap, list_lookup_imap.
  destruct (schema df !! j) as [f|]; [|done]. simpl.
  by destruct (as_float64 df j f).
Qed.



Lemma pandas_frame_column_values df j f :
  schema df !! j = Some f →
  column_values j (pandas_frame df) =
    if as_float64 df j f then to_float64 <$> column_values j df
    else column_values j df.
Proof.
  intros Hf.
  assert (column_values j (pandas_frame df) =
          (λ c, if as_float64 df j f then to_float64 c else c)
            <$> column_values j df) as ->.
  { unfold column_values, pandas_frame; cbn [rows].
    rewrite <- !list_fmap_compose. apply list_fmap_ext. intros k r _. simpl.
    unfold cell_at. rewrite list_lookup_imap.
    destruct (r !! j) as [c|]; simpl; [by rewrite Hf|].
    by destruct (as_float64 df j f). }
  destruct (as_float64 df j f); [done|]. apply list_fmap_id.
Qed.


Lemma to_pandas_Returns df df_pd :
  to_pandas df = Returns df_pd →
  transferable df = true ∧ df_pd = pandas_frame df.
Proof.
  unfold to_pandas. destruct (transferable df); [|done].
  by intros [= <-].
Qed.

Lemma transferable_spec df :
  transferable df = true →
  NoDup (columns df) ∧ ∀ r, r ∈ rows df → length r = length (schema df).
Proof.
  unfold transferable. rewrite !andb_true_iff.
  intros [[[[[_ Hnd] _] _] Hrows] _]. split.
  - by apply bool_decide_eq_true in Hnd.
  - intros r Hr. rewrite forallb_forall in Hrows.
    specialize (Hrows r (proj1 (list_elem_of_In _ _) Hr)).
    apply andb_true_iff in Hrows as [Hlen _].
    by apply bool_decide_eq_true in Hlen.
Qed.

Lemma resolve_columns c d1 d2 :
  columns d1 = columns d2 → resolve c d1 = resolve c d2.
Proof. intros H. unfold resolve, col_index. by rewrite H. Qed.

Lemma infrequent_category_casting_cell_Returns df df' :
  infrequent_category_casting_cell df = Returns df' →
  transferable df = true ∧
  infrequent_category_casting (pandas_frame df) = Some df'.
Proof.
  unfold infrequent_category_casting_cell.
  destruct (to_pandas df) as [df_pd| |] eqn:E; [|done|done].
  apply to_pandas_Returns in E as [Ht ->].
  destruct (infrequent_category_casting _) as [d|]; [|done].
  unfold create_dataframe. by intros [= <-].
Qed.




(** ** The cardinality reducer: the values of the MODEL column *)

Lemma elem_of_uniques l x : x ∈ uniques l ↔ x ∈ l.
Proof.
  induction l as [|v l IH]; simpl; [done|].
  rewrite !elem_of_cons, list_elem_of_filter, IH.
  destruct (decide (x = v)); intuition congruence.
Qed.

Lemma NoDup_uniques l : NoDup (uniques l).
Proof.
  induction l as [|v l IH]; simpl; [constructor|].
  constructor; [|by apply NoDup_filter].
  rewrite list_elem_of_filter. tauto.
Qed.

Lemma elem_of_dropna col v : v ∈ dropna col ↔ Some v ∈ col.
Proof.
  unfold dropna. rewrite list_elem_of_omap. split.
  - intros (x & Hx & Hv). simpl in Hv. by subst.
  - intros H. by exists (Some v).
Qed.

Lemma value_counts_keys col :
  (value_counts col).*1 ≡ₚ uniques (dropna col).
Proof.
  unfold value_counts. rewrite merge_sort_Permutation.
  rewrite <- list_fmap_compose. by rewrite list_fmap_id.
Qed.

Lemma elem_of_value_counts col p :
  p ∈ value_counts col →
  p.1 ∈ dropna col ∧ p.2 = occurrences p.1 (dropna col).
Proof.
  unfold value_counts. rewrite merge_sort_Permutation.
  intros (v & -> & Hv)%list_elem_of_fmap. simpl.
  split; [by apply elem_of_uniques|done].
Qed.

Lemma top_n_models_subseteq col v :
  v ∈ top_n_models col → Some v ∈ col.
Proof.
  unfold top_n_models. intros H%subseteq_take.
  rewrite value_counts_keys in H.
  by apply elem_of_uniques, elem_of_dropna in H.
Qed.

Lemma top_n_models_NoDup col : NoDup (top_n_models col).
Proof.
  unfold top_n_models. eapply sublist_NoDup; [|apply sublist_take].
  rewrite value_counts_keys. apply NoDup_uniques.
Qed.

Lemma top_n_models_length col :
  length (top_n_models col) = 1000 `min` length (uniques (dropna col)).
Proof.
  unfold top_n_models. by rewrite length_take, value_counts_keys.
Qed.

(** The retained values are the most frequent ones: a value that was left
    out does not occur more often than a value that was retained. *)
Lemma top_n_models_most_frequent col v w :
  v ∈ top_n_models col → Some w ∈ col → w ∉ top_n_models col →
  (occurrences w (dropna col) ≤ occurrences v (dropna col))%nat.
Proof.
  unfold top_n_models. rewrite <- fmap_take.
  intros (p & -> & Hp)%list_elem_of_fmap Hw Hout.
  assert (w ∈ (value_counts col).*1) as (q & -> & Hq)%list_elem_of_fmap.
  { rewrite value_counts_keys. by apply elem_of_uniques, elem_of_dropna. }
  pose proof (StronglySorted_merge_sort count_ge
    ((λ v, (v, occurrences v (dropna col))) <$> uniques (dropna col))) as Hs.
  fold (value_counts col) in Hs.
  rewrite <- (take_drop 1000 (value_counts col)) in Hs, Hq.
  apply elem_of_app in Hq as [Hq|Hq].
  { exfalso. apply Hout. apply list_elem_of_fmap. eauto. }
  pose proof (StronglySorted_app_1_elem_of _ _ _ _ _ Hs Hp Hq) as Hge.
  apply subseteq_take, elem_of_value_counts in Hp as [_ Hp2].
  apply subseteq_drop, elem_of_value_counts in Hq as [_ Hq2].
  unfold count_ge in Hge. lia.
Qed.

Lemma resolve_lt c df i : resolve c df = Some i → i < length (schema df).
Proof.
  intros H%resolve_lookup%lookup_lt_Some.
  unfold columns in H. by rewrite length_fmap in H.
Qed.

Lemma infrequent_category_casting_column df df' i :
  rectangular df → resolve "MODEL" df = Some i →
  infrequent_category_casting df = Some df' →
  column_values i df' =
    recode (top_n_models (column_values i df)) <$> column_values i df.
Proof.
  intros Hrect Hi. unfold infrequent_category_casting. rewrite Hi.
  cbn [mbind option_bind]. intros [= <-].
  set (top := top_n_models (column_values i df)).
  unfold column_values; cbn [rows]. rewrite <- !list_fmap_compose.
  apply list_fmap_ext. intros k r Hr. simpl.
  assert (i < length r) as Hlt.
  { unfold rectangular in Hrect. rewrite Forall_forall in Hrect.
    rewrite (Hrect r) by (apply list_elem_of_lookup; eauto).
    by eapply resolve_lt. }
  unfold cell_at at 1. by rewrite list_lookup_insert_eq.
Qed.

(** The MODEL column of the cell's result, when MODEL is a text column: the
    transfer leaves a text column as it is, so the assignment recodes the
    MODEL column of the table. *)
Lemma infrequent_category_casting_cell_model df df' i f :
  resolve "MODEL" df = Some i →
  schema df !! i = Some f → datatype f = StringType →
  infrequent_category_casting_cell df = Returns df' →
  column_values i df' =
    recode (top_n_models (column_values i df)) <$> column_values i df.
Proof.
  intros Hi Hf Hty [Ht Hc]%infrequent_category_casting_cell_Returns.
  assert (Hi' : resolve "MODEL" (pandas_frame df) = Some i)
    by (by rewrite (resolve_columns _ _ df (pandas_frame_columns df))).
  assert (Hcol : column_values i (pandas_frame df) = column_values i df).
  { rewrite (pandas_frame_column_values _ _ _ Hf). unfold as_float64.
    rewrite bool_decide_eq_false_2; [done|congruence]. }
  rewrite <- Hcol. apply infrequent_category_casting_column; [|done|done].
  destruct (transferable_spec _ Ht) as [_ Hlen].
  unfold rectangular. apply Forall_forall.
  intros r (r0 & -> & Hr0)%list_elem_of_fmap.
  unfold pandas_frame; cbn [schema]. rewrite !length_imap. by apply Hlen.
Qed.

Lemma elem_of_recode top col x :
  x ∈ recode top <$> col ↔
  x ∈ Some <$> top ∧ x ∈ col ∨
  x = Some INFREQUENT ∧ Exists (λ c, c ∉ Some <$> top) col.
Proof.
  rewrite list_elem_of_fmap, Exists_exists. split.
  - intros (c & -> & Hc). destruct c as [v|]; simpl.
    + destruct (decide (v ∈ top)) as [Hv|Hv].
      * left. split; [|done]. apply list_elem_of_fmap. eauto.
      * right. split; [done|]. exists (Some v). split; [done|].
        intros (w & [= ->] & Hw)%list_elem_of_fmap. done.
    + right. split; [done|]. exists None. split; [done|].
      by intros (w & ? & _)%list_elem_of_fmap.
  - intros [[(v & -> & Hv)%list_elem_of_fmap Hc] | [-> (c & Hc & Hout)]].
    + exists (Some v). split; [|done]. simpl. by rewrite decide_True.
    + exists c. split; [|done]. destruct c as [v|]; simpl; [|done].
      rewrite decide_False; [done|]. intros Hv. apply Hout.
      apply list_elem_of_fmap. eauto.
Qed.

(** C3 (as amended).  On a rectangular table in which MODEL names a column
    the reducer succeeds.  The retained values [top] are distinct values of
    the input column, as many as there are distinct values up to 1000, and
    none of them occurs less often than a value left out.  The set of values
    of the output column is [top] together with "INFREQUENT" when some input
    entry lies outside [top]; so the sentinel occurs in the output exactly
    when some input entry lies outside [top] or "INFREQUENT" is itself one of
    the retained values. *)
Theorem infrequent_category_casting_values (df : DataFrame) (i : nat) :
  rectangular df →
  resolve "MODEL" df = Some i →
  ∃ df',
    infrequent_category_casting df = Some df' ∧
    let vals := column_values i df in
    let top := top_n_models vals in
    let out := column_values i df' in
    NoDup top ∧
    length top = 1000 `min` length (uniques (dropna vals)) ∧
    (∀ v, v ∈ top → Some v ∈ vals) ∧
    (∀ v w, v ∈ top → Some w ∈ vals → w ∉ top →
       (occurrences w (dropna vals) ≤ occurrences v (dropna vals))%nat) ∧
    list_to_set out =@{gset (option Value)}
      list_to_set (Some <$> top) ∪
      (if decide (Exists (λ c, c ∉ Some <$> top) vals)
       then {[ Some INFREQUENT ]} else ∅) ∧
    (Some INFREQUENT ∈ out ↔
       Exists (λ c, c ∉ Some <$> top) vals ∨ INFREQUENT ∈ top).
Proof.
  intros Hrect Hi.
  destruct (infrequent_category_casting df) as [df'|] eqn:Hdf'.
  2:{ unfold infrequent_category_casting in Hdf'. by rewrite Hi in Hdf'. }
  exists df'. split; [done|]. intros vals top out.
  assert (Hout : out = recode top <$> vals)
    by (by apply infrequent_category_casting_column).
  split; [apply top_n_models_NoDup|].
  split; [apply top_n_models_length|].
  split; [apply top_n_models_subseteq|].
  split; [apply top_n_models_most_frequent|].
  assert (Htop : ∀ x, x ∈ Some <$> top → x ∈ vals).
  { intros x (v & -> & Hv)%list_elem_of_fmap.
    by apply top_n_models_subseteq. }
  split.
  - apply set_eq. intros x.
    rewrite elem_of_union, !elem_of_list_to_set, Hout, elem_of_recode.
    destruct (decide (Exists (λ c, c ∉ Some <$> top) vals)) as [He|He].
    + rewrite elem_of_singleton. intuition auto.
    + rewrite elem_of_empty. intuition auto.
  - rewrite Hout, elem_of_recode. split.
    + intros [[(v & [= <-] & Hv)%list_elem_of_fmap _] | [_ He]]; auto.
    + intros [He | Hs]; [by right|]. left.
      assert (Some INFREQUENT ∈ Some <$> top)
        by (apply list_elem_of_fmap; eauto).
      auto.
Qed.

Lemma infrequent_category_casting_values_witness :
  rectangular infrequent_model_df ∧
  resolve "MODEL" infrequent_model_df = Some 0 ∧
  ∃ df', infrequent_category_casting infrequent_model_df = Some df' ∧
         NoDup (top_n_models (column_values 0 infrequent_model_df)).
Proof.
  assert (H1 : rectangular infrequent_model_df)
    by (repeat constructor).
  assert (H2 : resolve "MODEL" infrequent_model_df = Some 0) by reflexivity.
  destruct (infrequent_category_casting_values infrequent_model_df 0 H1 H2)
    as (df' & Hdf' & Hnd & _).
  split; [exact H1|]. split; [exact H2|]. exists df'. split; assumption.
Defined.

(** C3 (as stated) fails when "INFREQUENT" is itself a frequent value of the
    column: no input value lies outside the retained set, and yet the
    sentinel string is a value of the output column. *)
Lemma infrequent_category_casting_sentinel_kept :
  ∃ df',
    infrequent_category_casting infrequent_model_df = Some df' ∧
    ¬ sentinel_absent_when_all_frequent 0 infrequent_model_df df'.
Proof.
  eexists. split; [vm_compute; reflexivity|].
  unfold sentinel_absent_when_all_frequent. intros H. apply H.
  - intros x Hx. vm_compute in Hx. vm_compute.
    apply list_elem_of_singleton in Hx as ->. apply list_elem_of_here.
  - vm_compute. apply list_elem_of_here.
Qed.

(** ** The two model configurations *)

(** C8.  The GPU configuration is the CPU configuration with [tree_method]
    and [predictor] replaced, and conversely (so one is built exactly when
    the other is); whenever they are built they agree on the input columns,
    the label columns, the output column and the estimator count 1000, and
    they differ in [tree_method] ("hist" / "gpu_hist") and in [predictor]
    ("cpu_predictor" / "gpu_predictor"). *)
Theorem model_definition_differ_only_in_target (train : DataFrame) :
  gpu_snowpark_xgb train =
    with_compute_target "gpu_hist" "gpu_predictor" <$> cpu_snowpark_xgb train ∧
  cpu_snowpark_xgb train =
    with_compute_target "hist" "cpu_predictor" <$> gpu_snowpark_xgb train ∧
  ∀ cpu gpu,
    cpu_snowpark_xgb train = Some cpu → gpu_snowpark_xgb train = Some gpu →
    input_cols cpu = input_cols gpu ∧
    label_cols cpu = label_cols gpu ∧
    output_cols cpu = "PREDICTED_PRICE" ∧ output_cols gpu = "PREDICTED_PRICE" ∧
    n_estimators cpu = 1000%Z ∧ n_estimators gpu = 1000%Z ∧
    tree_method cpu = "hist" ∧ tree_method gpu = "gpu_hist" ∧
    predictor cpu = "cpu_predictor" ∧ predictor gpu = "gpu_predictor" ∧
    tree_method cpu ≠ tree_method gpu ∧ predictor cpu ≠ predictor gpu.
Proof.
  unfold cpu_snowpark_xgb, gpu_snowpark_xgb.
  destruct (df_drop ["PRICE"] train) as [inputs|]; simpl;
    [|by repeat split].
  destruct (df_select ["PRICE"] train) as [labels|]; simpl;
    [|by repeat split].
  split; [done|]. split; [done|].
  intros cpu gpu [= <-] [= <-]; simpl. by repeat split.
Qed.

Lemma model_definition_differ_only_in_target_witness :
  ∃ cpu gpu,
    cpu_snowpark_xgb train_df = Some cpu ∧
    gpu_snowpark_xgb train_df = Some gpu ∧
    input_cols cpu = input_cols gpu ∧
    tree_method cpu ≠ tree_method gpu.
Proof.
  eexists _, _.
  assert (Hc : cpu_snowpark_xgb train_df = Some _) by (vm_compute; reflexivity).
  assert (Hg : gpu_snowpark_xgb train_df = Some _) by (vm_compute; reflexivity).
  destruct (model_definition_differ_only_in_target train_df) as (_ & _ & H).
  destruct (H _ _ Hc Hg) as (H1 & _ & _ & _ & _ & _ & _ & _ & _ & _ & H2 & _).
  split; [exact Hc|]. split; [exact Hg|]. split; [exact H1 | exact H2].
Defined.

(** ** Label and inputs *)

Lemma keep_masked_filter {A : Type} (P : A → Prop) `{!∀ x, Decision (P x)}
    (l : list A) :
  keep_masked ((λ x, bool_decide (P x)) <$> l) l = filter P l.
Proof.
  induction l as [|x l IH]; [done|]. rewrite fmap_cons. cbn [keep_masked].
  rewrite filter_cons.
  destruct (decide (P x)) as [Hx|Hx].
  - rewrite bool_decide_eq_true_2 by done. by rewrite IH.
  - rewrite bool_decide_eq_false_2 by done. by rewrite IH.
Qed.

Lemma df_drop_columns names df d :
  df_drop names df = Some d →
  columns d = filter (λ c, c ∉ names) (columns df).
Proof.
  unfold df_drop. case_decide as Hk; [done|]. intros [= <-]. clear Hk.
  unfold columns; cbn [schema].
  rewrite (keep_masked_filter (λ f, name f ∉ names)).
  induction (schema df) as [|f fs IH]; [done|].
  rewrite fmap_cons, !filter_cons. cbn [name].
  destruct (decide (name f ∉ names)); by rewrite ?fmap_cons, IH.
Qed.

(** C10.  When PRICE names exactly one column of the training table and the
    table has another column, both configurations are built; in each the
    input columns are the table's columns without PRICE, in order, the label
    columns are [PRICE] alone, and no input column is a label column. *)
Theorem model_definition_no_leakage (train : DataFrame) (i : nat) :
  resolve "PRICE" train = Some i →
  (∃ c, c ∈ columns train ∧ c ≠ "PRICE") →
  ∃ cpu gpu,
    cpu_snowpark_xgb train = Some cpu ∧ gpu_snowpark_xgb train = Some gpu ∧
    ∀ m, m = cpu ∨ m = gpu →
      input_cols m = filter (λ c, c ≠ "PRICE") (columns train) ∧
      label_cols m = ["PRICE"] ∧
      ("PRICE" ∉ input_cols m) ∧
      (∀ c, c ∈ input_cols m → c ∉ label_cols m).
Proof.
  intros Hi (c0 & Hc0 & Hne).
  assert (Hfilter : filter (λ c, c ∉ ["PRICE"]) (columns train) =
                    filter (λ c, c ≠ "PRICE") (columns train)).
  { apply list_filter_iff. intros c. by rewrite list_elem_of_singleton. }
  destruct (df_drop ["PRICE"] train) as [inputs|] eqn:Hd.
  2:{ exfalso. unfold df_drop in Hd. case_decide as Hk; [|done].
      rewrite (keep_masked_filter (λ f, name f ∉ ["PRICE"])) in Hk.
      apply list_elem_of_fmap in Hc0 as (f & -> & Hf).
      assert (f ∈ filter (λ f, name f ∉ ["PRICE"]) (schema train)) as Hin.
      { apply list_elem_of_filter. by rewrite list_elem_of_singleton. }
      rewrite Hk in Hin. by apply elem_of_nil in Hin. }
  destruct (df_select ["PRICE"] train) as [labels|] eqn:Hs.
  2:{ exfalso. unfold df_select in Hs. simpl in Hs. by rewrite Hi in Hs. }
  unfold cpu_snowpark_xgb, gpu_snowpark_xgb. rewrite Hd, Hs. simpl.
  eexists _, _. split; [reflexivity|]. split; [reflexivity|].
  assert (Hin : columns inputs = filter (λ c, c ≠ "PRICE") (columns train))
    by (by rewrite (df_drop_columns _ _ _ Hd)).
  assert (Hl : columns labels = ["PRICE"]) by (by eapply df_select_columns).
  assert (Hnot : "PRICE" ∉ columns inputs).
  { rewrite Hin, list_elem_of_filter. tauto. }
  intros m [-> | ->]; simpl; rewrite Hl; (repeat split; [done|done|]);
    intros c Hc ->%list_elem_of_singleton; done.
Qed.

Lemma model_definition_no_leakage_witness :
  resolve "PRICE" train_df = Some 1 ∧
  (∃ c, c ∈ columns train_df ∧ c ≠ "PRICE") ∧
  ∃ cpu gpu,
    cpu_snowpark_xgb train_df = Some cpu ∧ gpu_snowpark_xgb train_df = Some gpu ∧
    ("PRICE" ∉ input_cols cpu) ∧ ("PRICE" ∉ input_cols gpu).
Proof.
  assert (H1 : resolve "PRICE" train_df = Some 1) by reflexivity.
  assert (H2 : ∃ c, c ∈ columns train_df ∧ c ≠ "PRICE").
  { exists "ODOMETER". split; [apply list_elem_of_here | discriminate]. }
  destruct (model_definition_no_leakage train_df 1 H1 H2)
    as (cpu & gpu & Hc & Hg & H).
  split; [exact H1|]. split; [exact H2|]. exists cpu, gpu.
  split; [exact Hc|]. split; [exact Hg|].
  split; [apply (H cpu) | apply (H gpu)]; auto.
Defined.

(** ** Python strings: [find], slices, digits *)

Lemma find_index_Some c s k :
  find_index c s = Some k →
  get k s = Some c ∧ ∀ j, j < k → get j s ≠ Some c.
Proof.
  revert k. induction s as [|a s IH]; intros k; simpl; [done|].
  case_decide as Ha.
  - intros [= <-]. split; [by subst|]. intros j Hj. lia.
  - destruct (find_index c s) as [k'|]; [|done]. intros [= <-].
    destruct (IH k' eq_refl) as [Hg Hmin]. split; [done|].
    intros [|j] Hj; simpl; [congruence|]. apply Hmin. lia.
Qed.

Lemma find_index_None c s j : find_index c s = None → get j s ≠ Some c.
Proof.
  revert j. induction s as [|a s IH]; intros j; simpl; [done|].
  case_decide as Ha; [done|].
  destruct (find_index c s); [done|]. intros _.
  destruct j as [|j]; [congruence|]. by apply IH.
Qed.

Lemma get_lt_length s j c : get j s = Some c → j < String.length s.
Proof.
  revert j. induction s as [|a s IH]; intros [|j]; simpl; try done; [lia|].
  intros H%IH. lia.
Qed.

Lemma find_0_starts_with s c : find s c = 0%Z ↔ starts_with c s = true.
Proof.
  unfold find. destruct s as [|a s]; simpl; [done|].
  rewrite bool_decide_eq_true. case_decide as Ha; [done|].
  destruct (find_index c s); simpl; split; (done || lia).
Qed.

(** The text cut out for a renamed column stops before the first
    underscore, so it holds none. *)
Lemma slice_to_find_free s c j :
  get j (slice s 1 (find s c)) ≠ Some c.
Proof.
  unfold slice, find, clamp_index.
  set (len := Z.of_nat (String.length s)).
  assert (0 ≤ len)%Z as Hlen by lia.
  destruct (find_index c s) as [k|] eqn:Hk.
  - destruct (find_index_Some _ _ _ Hk) as [Hg Hmin].
    pose proof (get_lt_length _ _ _ Hg) as Hlt.
    destruct (Z.ltb_spec 1 0); [lia|].
    destruct (Z.ltb_spec (Z.of_nat k) 0); [lia|].
    set (a' := Z.to_nat (1 `min` len)).
    set (m := Z.to_nat (Z.of_nat k `min` len - 1 `min` len)).
    destruct (decide (j < m)) as [Hj|Hj].
    + rewrite substring_correct1 by done. apply Hmin. unfold a', m in *. lia.
    + rewrite substring_correct2 by lia. done.
  - destruct (Z.ltb_spec 1 0); [lia|].
    destruct (Z.ltb_spec (-1) 0); [|lia].
    set (a' := Z.to_nat (1 `min` len)).
    set (m := Z.to_nat ((-1 + len) `max` 0 - 1 `min` len)).
    destruct (decide (j < m)) as [Hj|Hj].
    + rewrite substring_correct1 by done. by apply find_index_None.
    + rewrite substring_correct2 by lia. done.
Qed.

Lemma append_nil_l s : "" +:+ s = s.
Proof. reflexivity. Qed.

Lemma append_cons a s t : String a s +:+ t = String a (s +:+ t).
Proof. reflexivity. Qed.

Lemma append_marker_inj p1 p2 d1 d2 :
  (∀ j, get j p1 ≠ Some underscore) → (∀ j, get j p2 ≠ Some underscore) →
  p1 +:+ "__" +:+ d1 = p2 +:+ "__" +:+ d2 → p1 = p2 ∧ d1 = d2.
Proof.
  revert p2. induction p1 as [|a p1 IH]; intros [|b p2] H1 H2.
  - rewrite !append_nil_l. by intros ->%(inj (String.app "__")).
  - rewrite append_nil_l, !append_cons, append_nil_l.
    intros [= <- _]. by specialize (H2 0).
  - rewrite append_nil_l, !append_cons, append_nil_l.
    intros [= -> _]. by specialize (H1 0).
  - rewrite !(append_cons _ _ ("__" +:+ _)). intros [= -> Heq].
    destruct (IH p2) as [-> ->]; [| |done|done].
    + intros j. apply (H1 (S j)).
    + intros j. apply (H2 (S j)).
Qed.

Lemma str_inj n1 n2 : str n1 = str n2 → n1 = n2.
Proof.
  unfold str. intros H. apply Unsigned.to_uint_inj.
  apply (f_equal NilEmpty.uint_of_string) in H.
  rewrite !NilEmpty.usu in H. congruence.
Qed.

Lemma ends_with_digit_append s t :
  t ≠ "" → ends_with_digit (s +:+ t) = ends_with_digit t.
Proof.
  intros Ht. induction s as [|a s IH]; [done|].
  rewrite append_cons. cbn [ends_with_digit]. rewrite IH.
  destruct (s +:+ t) eqn:E; [|done].
  destruct s; rewrite ?append_nil_l, ?append_cons in E; [done|discriminate].
Qed.

Lemma ends_with_digit_uint d :
  d ≠ Decimal.Nil → ends_with_digit (NilEmpty.string_of_uint d) = true.
Proof.
  induction d as [|d IH|d IH|d IH|d IH|d IH|d IH|d IH|d IH|d IH|d IH];
    intros Hd; [done|..];
    (simpl; destruct d; [done|..];
     (rewrite <- IH by discriminate; reflexivity)).
Qed.

Lemma ends_with_digit_str n : ends_with_digit (str n) = true.
Proof.
  unfold str. apply ends_with_digit_uint.
  intros H. pose proof (Unsigned.of_to n) as Hn. rewrite H in Hn.
  simpl in Hn. subst n. discriminate H.
Qed.

(** ** The renaming dictionary *)

Lemma renaming_dict_snoc cols c :
  renaming_dict (cols ++ [c]) =
  <[c := new_name (length cols) c]> (renaming_dict cols).
Proof.
  unfold renaming_dict, enumerate. rewrite imap_app, foldl_app. simpl.
  by rewrite Nat.add_0_r.
Qed.

Lemma renaming_dict_lookup cols n c :
  NoDup cols → cols !! n = Some c →
  renaming_dict cols !! c = Some (new_name n c).
Proof.
  revert n c. induction cols as [|x cols IH] using rev_ind; intros n c Hnd Hn;
    [done|].
  rewrite renaming_dict_snoc.
  apply NoDup_app in Hnd as (Hnd & Hx & _).
  apply lookup_snoc_Some in Hn as [[Hlt Hn] | [-> ->]].
  - rewrite lookup_insert_ne; [by apply IH|].
    intros ->. apply (Hx c); [|apply list_elem_of_here].
    apply list_elem_of_lookup. eauto.
  - by rewrite lookup_insert_eq.
Qed.

Lemma renamed_columns_imap cols :
  NoDup cols → renamed_columns cols = imap new_name cols.
Proof.
  intros Hnd. unfold renamed_columns. apply list_eq. intros n.
  rewrite list_lookup_fmap, list_lookup_imap.
  destruct (cols !! n) as [c|] eqn:Hc; [|done]. simpl.
  by rewrite (renaming_dict_lookup _ _ _ Hnd Hc).
Qed.

Lemma new_name_kept n c : starts_with dquote c = false → new_name n c = c.
Proof.
  intros H. unfold new_name. rewrite decide_False; [done|].
  rewrite find_0_starts_with. congruence.
Qed.

Lemma new_name_quoted n c :
  starts_with dquote c = true →
  new_name n c = slice c 1 (find c underscore) +:+ "__" +:+ str n.
Proof.
  intros H%find_0_starts_with. unfold new_name.
  rewrite decide_True by done. by rewrite H.
Qed.

(** Two renamed columns at different positions get different names: the
    text before the marker holds no underscore, so equal names have equal
    suffixes, and the suffix is the position. *)
Lemma new_name_quoted_inj i j ci cj :
  starts_with dquote ci = true → starts_with dquote cj = true →
  new_name i ci = new_name j cj → i = j.
Proof.
  intros Hi Hj. rewrite (new_name_quoted _ _ Hi), (new_name_quoted _ _ Hj).
  intros [_ H]%append_marker_inj; [by apply str_inj| |];
    intros k; apply slice_to_find_free.
Qed.

Lemma new_name_quoted_ends_with_digit n c :
  starts_with dquote c = true → ends_with_digit (new_name n c) = true.
Proof.
  intros H. rewrite (new_name_quoted _ _ H).
  rewrite ends_with_digit_append by (by rewrite !append_cons).
  rewrite ends_with_digit_append; [apply ends_with_digit_str|].
  intros Hs. pose proof (ends_with_digit_str n) as Hd. by rewrite Hs in Hd.
Qed.

(** Where the renaming can collide.  For distinct column names the
    dictionary holds, for the column at position [i], the name computed by
    the loop body.  Two columns at different positions receive the same name
    only when one of them is kept as it is (it does not begin with a double
    quote) and is equal to the name generated for the other, which is
    renamed; two renamed columns never collide, nor do two kept ones.  In
    particular the renaming is injective when no kept name ends in a
    digit. *)
Theorem renaming_dict_collisions (cols : list string) :
  NoDup cols →
  (∀ i c, cols !! i = Some c →
     renaming_dict cols !! c = Some (new_name i c)) ∧
  (∀ i j ci cj, cols !! i = Some ci → cols !! j = Some cj → i ≠ j →
     renaming_dict cols !! ci = renaming_dict cols !! cj →
     (starts_with dquote ci = false ∧ starts_with dquote cj = true ∧
      ci = new_name j cj) ∨
     (starts_with dquote ci = true ∧ starts_with dquote cj = false ∧
      cj = new_name i ci)) ∧
  ((∀ c, c ∈ cols → starts_with dquote c = false → ends_with_digit c = false) →
   renaming_injective cols).
Proof.
  intros Hnd.
  assert (Hcases : ∀ i j ci cj,
    cols !! i = Some ci → cols !! j = Some cj → i ≠ j →
    renaming_dict cols !! ci = renaming_dict cols !! cj →
    (starts_with dquote ci = false ∧ starts_with dquote cj = true ∧
     ci = new_name j cj) ∨
    (starts_with dquote ci = true ∧ starts_with dquote cj = false ∧
     cj = new_name i ci)).
  { intros i j ci cj Hi Hj Hne.
    rewrite (renaming_dict_lookup _ _ _ Hnd Hi),
            (renaming_dict_lookup _ _ _ Hnd Hj).
    intros [= Heq].
    destruct (starts_with dquote ci) eqn:Hqi, (starts_with dquote cj) eqn:Hqj.
    - exfalso. apply Hne. exact (new_name_quoted_inj i j ci cj Hqi Hqj Heq).
    - right. rewrite (new_name_kept j cj Hqj) in Heq. by repeat split.
    - left. rewrite (new_name_kept i ci Hqi) in Heq. by repeat split.
    - exfalso. rewrite (new_name_kept i ci Hqi), (new_name_kept j cj Hqj) in Heq.
      subst cj. apply Hne. by eapply NoDup_lookup. }
  split; [intros i c; by apply renaming_dict_lookup|].
  split; [exact Hcases|].
  intros Hkept i j ci cj Hi Hj Hne Heq.
  destruct (Hcases i j ci cj Hi Hj Hne Heq) as [(Hqi & Hqj & E)|(Hqi & Hqj & E)].
  - assert (ends_with_digit ci = false) as Hd
      by (apply Hkept; [apply list_elem_of_lookup; eauto|done]).
    rewrite E, new_name_quoted_ends_with_digit in Hd; done.
  - assert (ends_with_digit cj = false) as Hd
      by (apply Hkept; [apply list_elem_of_lookup; eauto|done]).
    rewrite E, new_name_quoted_ends_with_digit in Hd; done.
Qed.

Lemma renaming_dict_collisions_witness :
  NoDup colliding_cols ∧
  renaming_dict colliding_cols !! "REGION__1" = Some (new_name 0 "REGION__1").
Proof.
  assert (H : NoDup colliding_cols)
    by by_evaluation.
  destruct (renaming_dict_collisions colliding_cols H) as (H1 & _).
  split; [exact H|]. by apply H1.
Defined.

(** The kept name REGION__1 at position 0 and the renamed column at
    position 1, cut to REGION and given the suffix __1, are distinct inputs
    with one output name. *)
Lemma renaming_dict_not_injective :
  NoDup colliding_cols ∧ ¬ renaming_injective colliding_cols.
Proof.
  split; [by_evaluation|].
  intros H.
  apply (H 0 1 "REGION__1"
           (String dquote ("REGION_auburn" +:+ String dquote "")));
    [reflexivity|reflexivity|lia|].
  vm_compute. reflexivity.
Qed.

(** ** Renaming and sorting again *)






Lemma sorted_Permutation l : sorted l ≡ₚ l.
Proof. apply merge_sort_Permutation. Qed.





Lemma index_of_first c cols k i :
  index_of c cols = Some k → cols !! i = Some c → (k ≤ i)%nat.
Proof.
  revert k i. induction cols as [|x cols IH]; intros k i; simpl; [done|].
  case_decide as Hx; [intros [= <-]; lia|].
  destruct (index_of c cols) as [k'|]; [|done]. intros [= <-].
  destruct i as [|i]; simpl; [congruence|]. intros H.
  specialize (IH k' i eq_refl H). lia.
Qed.

Lemma resolve_unique c df k i :
  resolve c df = Some k → columns df !! i = Some c → i = k.
Proof.
  unfold resolve, col_index.
  destruct (index_of c (columns df)) as [k'|] eqn:Hk; [|done]. simpl.
  case_decide as Hd; [done|]. intros [= <-] Hi.
  pose proof (index_of_first _ _ _ _ Hk Hi) as Hle.
  destruct (decide (i = k')) as [|Hne]; [done|]. exfalso. apply Hd.
  apply list_elem_of_lookup. exists (i - S k').
  rewrite lookup_drop. by replace (S k' + (i - S k')) with i by lia.
Qed.

Lemma NoDup_resolve df :
  (∀ c, c ∈ columns df → is_Some (resolve c df)) → NoDup (columns df).
Proof.
  intros H. apply NoDup_alt. intros i j c Hi Hj.
  destruct (H c) as [k Hk]; [apply list_elem_of_lookup; eauto|].
  by rewrite (resolve_unique _ _ _ _ Hk Hi), (resolve_unique _ _ _ _ Hk Hj).
Qed.

Lemma df_select_resolved names df d c :
  df_select names df = Some d → c ∈ names → is_Some (resolve c df).
Proof.
  unfold df_select. destruct (mapM _ names) as [idxs|] eqn:E; [|done].
  intros _ Hc. apply mapM_Some in E.
  apply list_elem_of_lookup in Hc as [i Hc].
  destruct (Forall2_lookup_l _ _ _ _ _ E Hc) as (k & _ & Hk). eauto.
Qed.




Lemma df_rename_columns cols df :
  columns (df_rename (renaming_dict cols) df) =
  (λ c, default c (renaming_dict cols !! c)) <$> columns df.
Proof.
  unfold columns, df_rename; simpl. rewrite <- !list_fmap_compose.
  by apply list_fmap_ext.
Qed.

Lemma rename_columns_NoDup transformed_df out :
  rename_columns transformed_df = Some out →
  NoDup (renamed_columns (columns transformed_df)).
Proof.
  unfold rename_columns, renamed_columns. rewrite <- df_rename_columns.
  intros Hout. apply NoDup_resolve. intros c Hc.
  eapply df_select_resolved; [exact Hout|]. by rewrite sorted_Permutation.
Qed.

(** ** Colliding names *)

(** C7.  The renaming is not injective on the tables the one-hot encoder
    returns.  For a table whose regions are [A b] and [_0] the encoder
    returns the distinct columns "REGION_A b" (quoted), REGION__0 and PRICE,
    in this order.  On every table with these columns the loop cuts the
    first name to REGION and appends its position, __0, and keeps the second,
    so both are mapped to REGION__0, and the selection of the sorted names
    that follows raises on the ambiguous name. *)
Theorem rename_columns_collision (transformed_df : DataFrame) :
  columns transformed_df = underscore_region_cols →
  NoDup (columns transformed_df) ∧
  renamed_columns (columns transformed_df) =
    ["REGION__0"; "REGION__0"; "PRICE"] ∧
  ¬ renaming_injective (columns transformed_df) ∧
  rename_columns transformed_df = None.
Proof.
  intros Hcols.
  assert (Hren : renamed_columns (columns transformed_df) =
                 ["REGION__0"; "REGION__0"; "PRICE"])
    by (rewrite Hcols; vm_compute; reflexivity).
  split; [rewrite Hcols; by_evaluation|]. split; [exact Hren|]. split.
  - intros H. rewrite Hcols in H.
    apply (H 0 1 (String dquote ("REGION_A b" +:+ String dquote ""))
             "REGION__0"); [reflexivity|reflexivity|lia|].
    vm_compute. reflexivity.
  - destruct (rename_columns transformed_df) as [out|] eqn:E; [|done].
    apply rename_columns_NoDup in E. rewrite Hren in E.
    apply NoDup_cons in E as [E _]. exfalso. apply E, list_elem_of_here.
Qed.

Lemma rename_columns_collision_witness :
  columns underscore_region_encoded = underscore_region_cols ∧
  renamed_columns (columns underscore_region_encoded) =
    ["REGION__0"; "REGION__0"; "PRICE"] ∧
  rename_columns underscore_region_encoded = None.
Proof.
  assert (H : columns underscore_region_encoded = underscore_region_cols)
    by reflexivity.
  destruct (rename_columns_collision underscore_region_encoded H)
    as (_ & H1 & _ & H2).
  split; [exact H|]. split; [exact H1 | exact H2].
Defined.

(** ** Running the Encoder on its own output *)





(** ** The cells evaluated on the sample tables *)

Example slice_examples :
  slice "hello" 1 (-1) = "ell" ∧ slice "hello" 1 3 = "el" ∧
  slice "hello" 1 0 = "" ∧ slice "a" 1 (-1) = "".
Proof. by repeat split. Qed.

Example find_examples :
  find "TITLE_STATUS_clean" underscore = 5%Z ∧ find "PRICE" underscore = (-1)%Z.
Proof. by split. Qed.

Example new_name_examples :
  new_name 3 (String dquote ("TITLE_STATUS_clean" +:+ String dquote ""))
    = "TITLE__3" ∧
  new_name 12 (String dquote ("abc" +:+ String dquote "")) = "abc__12" ∧
  new_name 12 "PRICE" = "PRICE".
Proof. by repeat split. Qed.

Example sorted_example :
  sorted ["b"; "a"; "B"; "ab"; "_"] = ["B"; "_"; "a"; "ab"; "b"].
Proof. reflexivity. Qed.

Example renamed_columns_example :
  renamed_columns colliding_cols = ["REGION__1"; "REGION__1"].
Proof. reflexivity. Qed.

Example fill_null_example :
  fill_null flagged_df =
  Some {| schema := schema flagged_df;
          rows := [[Some (VString "NA"); Some (VLong 0); None];
                   [Some (VString "auburn"); Some (VLong 4500);
                    Some (VBool false)]] |}.
Proof. reflexivity. Qed.

Example top_n_models_example :
  top_n_models [Some (VString "civic"); None; Some (VString "f-150");
                Some (VString "f-150")]
  = [VString "f-150"; VString "civic"].
Proof. reflexivity. Qed.

Example increase_data_size_example : count (increase_data_size vehicles_df) = 12.
Proof. reflexivity. Qed.

Example one_hot_encoding_example :
  one_hot_encoding ["REGION"] vehicles_df = Returns vehicles_encoded ∧
  one_hot_encoding ["REGION"] underscore_region_df =
    Returns underscore_region_encoded.
Proof. split; vm_compute; reflexivity. Qed.

Example one_hot_encoding_columns_example :
  columns vehicles_encoded =
    ["REGION_NA"; String dquote ("REGION_auburn" +:+ String dquote ""); "PRICE"] ∧
  columns underscore_region_encoded = underscore_region_cols.
Proof. split; reflexivity. Qed.

Example one_hot_encoding_raises_example :
  one_hot_encoding ["REGION"] {| schema := schema vehicles_df; rows := [] |}
    = Raises ∧
  one_hot_encoding ["MODEL"] vehicles_df = Raises.
Proof. split; vm_compute; reflexivity. Qed.

Example single_quotes_example :
  single_quotes (String "a" (String dquote "b")) = "a'b".
Proof. reflexivity. Qed.

Example round_to_double_examples :
  round_to_double 9007199254740993 = 9007199254740992%Z ∧
  round_to_double 9007199254740995 = 9007199254740996%Z ∧
  round_to_double (-9007199254740993) = (-9007199254740992)%Z ∧
  round_to_double 4500 = 4500%Z.
Proof. by repeat split. Qed.

Example to_pandas_examples :
  to_pandas vehicles_df = Returns vehicles_df ∧
  to_pandas flagged_df = Outside ∧
  (schema <$> match to_pandas large_price_df with
              | Returns df_pd => Some df_pd
              | _ => None
              end)
    = Some [mkField "MODEL" StringType; mkField "PRICE" DoubleType].
Proof. repeat split; vm_compute; reflexivity. Qed.

Example encoder_example :
  encoder ["REGION"] vehicles_df = Returns vehicles_renamed ∧
  columns vehicles_renamed = ["PRICE"; "REGION_NA"; "REGION__1"] ∧
  encoder ["REGION"] underscore_region_df = Raises.
Proof. repeat split; vm_compute; reflexivity. Qed.

Example encoder_colliding_example :
  (∃ transformed_df,
     one_hot_encoding ["REGION"] colliding_region_df = Returns transformed_df ∧
     columns transformed_df = colliding_cols ++ ["PRICE"]) ∧
  encoder ["REGION"] colliding_region_df = Raises ∧
  one_hot_encoding ["REGION"] null_price_df = Returns
    {| schema := [mkField (String dquote ("REGION_auburn" +:+ String dquote ""))
                    LongType;
                  mkField "PRICE" LongType];
       rows := [[Some (VLong 1); None]] |} ∧
  one_hot_encoding ["REGION"] flagged_df = Outside.
Proof.
  split; [eexists; split; vm_compute; reflexivity|].
  repeat split; vm_compute; reflexivity.
Qed.

(* ================================================================== *)
(** * Further properties of the cells *)

(** ** Missing columns *)

Lemma index_of_None c cols : c ∉ cols → index_of c cols = None.
Proof.
  induction cols as [|x cols IH]; [done|]. rewrite not_elem_of_cons.
  intros [Hne Hc]. simpl. rewrite decide_False by done. by rewrite IH.
Qed.

Lemma resolve_None c df : c ∉ columns df → resolve c df = None.
Proof. intros H. unfold resolve, col_index. by rewrite index_of_None. Qed.

(** X1.  A cell raises when the column it names is no column of the table:
    the filter and the model configurations without PRICE, the fill step
    without REGION, the cardinality reducer without MODEL. *)
Theorem missing_column_raises (df : DataFrame) :
  ("PRICE" ∉ columns df →
     filter_to_100k df = None ∧
     cpu_snowpark_xgb df = None ∧ gpu_snowpark_xgb df = None) ∧
  ("REGION" ∉ columns df → string_cols df = None ∧ fill_null df = None) ∧
  ("MODEL" ∉ columns df → infrequent_category_casting df = None).
Proof.
  split; [|split].
  - intros H%resolve_None. split.
    + unfold filter_to_100k. by rewrite H.
    + unfold cpu_snowpark_xgb, gpu_snowpark_xgb, df_select. simpl.
      rewrite H. simpl. by destruct (df_drop ["PRICE"] df).
  - intros H%resolve_None.
    assert (string_cols df = None) as Hs.
    { unfold string_cols, string_type, df_select. simpl. by rewrite H. }
    split; [done|]. unfold fill_null. by rewrite Hs.
  - intros H%resolve_None. unfold infrequent_category_casting. by rewrite H.
Qed.

Lemma missing_column_raises_witness :
  ("MODEL" ∉ columns vehicles_df) ∧
  infrequent_category_casting vehicles_df = None.
Proof.
  assert (H : "MODEL" ∉ columns vehicles_df) by by_evaluation.
  split; [exact H|]. by apply (missing_column_raises vehicles_df).
Defined.

(** ** The price filter, again *)

(** X2.  The filter only removes rows: what it returns is a sub-list of the
    rows it was given, in their order, so the row count does not grow; and
    filtering the result again returns it unchanged. *)
Theorem filter_to_100k_idempotent (df df' : DataFrame) :
  filter_to_100k df = Some df' →
  rows df' `sublist_of` rows df ∧
  (count df' ≤ count df)%nat ∧
  filter_to_100k df' = Some df'.
Proof.
  unfold filter_to_100k.
  destruct (resolve "PRICE" df) as [i|] eqn:Hi; [|done]. simpl.
  intros [= <-]. unfold df_filter; simpl. split; [apply sublist_filter|].
  split; [unfold count; simpl; apply length_filter|].
  assert (resolve "PRICE"
            {| schema := schema df;
               rows := filter
                 (λ r, where_true (sql_lt (cell_at r i) 100000%Z) = true)
                 (rows df) |} = Some i) as -> by exact Hi.
  simpl. do 2 f_equal. rewrite list_filter_filter.
  apply list_filter_iff. tauto.
Qed.

Lemma filter_to_100k_idempotent_witness :
  ∃ df', filter_to_100k raw_df = Some df' ∧
         count df' = 2 ∧ filter_to_100k df' = Some df'.
Proof.
  eexists.
  assert (H : filter_to_100k raw_df = Some _) by (vm_compute; reflexivity).
  split; [exact H|]. split; [reflexivity|].
  by apply (filter_to_100k_idempotent raw_df).
Defined.

(** ** Dropping columns *)

Lemma keep_masked_length {A B : Type} (mask : list bool)
    (l : list A) (k : list B) :
  length l = length k →
  length (keep_masked mask l) = length (keep_masked mask k).
Proof.
  revert l k. induction mask as [|b mask IH]; intros [|x l] [|y k];
    simpl; try done.
  intros [= H]. destruct b; simpl; auto.
Qed.

Lemma df_drop_is_None names df :
  df_drop names df = None ↔ Forall (λ c, c ∈ names) (columns df).
Proof.
  unfold df_drop. rewrite (keep_masked_filter (λ f, name f ∉ names)).
  unfold columns. rewrite Forall_fmap. split.
  - case_decide as Hk; [|done]. intros _. apply Forall_forall. intros f Hf.
    simpl. destruct (decide (name f ∈ names)) as [|Hn]; [done|]. exfalso.
    assert (f ∈ filter (λ f, name f ∉ names) (schema df)) as Hin
      by (by apply list_elem_of_filter).
    rewrite Hk in Hin. by apply elem_of_nil in Hin.
  - intros Hall. rewrite decide_True; [done|].
    apply elem_of_nil_inv. intros f [Hn Hf]%list_elem_of_filter.
    rewrite Forall_forall in Hall. by apply Hn, Hall.
Qed.

Lemma df_drop_rectangular names df d :
  rectangular df → df_drop names df = Some d → rectangular d.
Proof.
  unfold df_drop, rectangular. intros Hrect. case_decide; [done|].
  intros [= <-]. simpl. apply Forall_forall.
  intros r' (r & -> & Hr)%list_elem_of_fmap.
  apply keep_masked_length. rewrite Forall_forall in Hrect. by apply Hrect.
Qed.

(** A column that is kept is found again, and row by row its cell is the
    cell it had. *)
Lemma keep_masked_position (P : StructField → bool) sch c i :
  index_of c (name <$> sch) = Some i →
  (∀ f, f ∈ sch → name f = c → P f = true) →
  ∃ j, index_of c (name <$> keep_masked (P <$> sch) sch) = Some j ∧
       ∀ r : list (option Value), length r = length sch →
         keep_masked (P <$> sch) r !! j = r !! i.
Proof.
  revert i. induction sch as [|f sch IH]; intros i; [done|].
  rewrite !fmap_cons. cbn [index_of keep_masked]. intros Hi HP.
  destruct (decide (name f = c)) as [Hf|Hf].
  - injection Hi as <-. rewrite (HP f) by (done || apply list_elem_of_here).
    exists 0. rewrite fmap_cons. cbn [index_of]. rewrite decide_True by done.
    split; [done|]. by intros [|x r] Hr.
  - destruct (index_of c (name <$> sch)) as [i'|] eqn:Hi'; [|done].
    injection Hi as <-.
    destruct (IH i' eq_refl) as (j & Hj & Hcells).
    { intros g Hg. apply HP. by apply list_elem_of_further. }
    destruct (P f).
    + exists (S j). rewrite fmap_cons. cbn [index_of].
      rewrite decide_False by done. rewrite Hj. split; [done|].
      intros [|x r] [= Hr]. by apply Hcells.
    + exists j. split; [done|]. intros [|x r] [= Hr]. by apply Hcells.
Qed.

Lemma df_drop_column_values names df d c i :
  NoDup (columns df) → rectangular df →
  df_drop names df = Some d → c ∉ names → resolve c df = Some i →
  ∃ j, resolve c d = Some j ∧ column_values j d = column_values i df.
Proof.
  intros Hnd Hrect Hd Hc Hi.
  assert (Hnd' : NoDup (columns d)).
  { rewrite (df_drop_columns _ _ _ Hd). by apply NoDup_filter. }
  assert (Hin : c ∈ columns d).
  { rewrite (df_drop_columns _ _ _ Hd). apply list_elem_of_filter.
    split; [done|]. apply list_elem_of_lookup. exists i.
    by apply resolve_lookup. }
  destruct (resolve_NoDup c d Hnd' Hin) as (j & Hj & _).
  exists j. split; [done|].
  assert (Hidx : index_of c (name <$> schema df) = Some i).
  { unfold resolve, col_index, columns in Hi.
    destruct (index_of c (name <$> schema df)); [|done]. simpl in Hi.
    by case_decide. }
  destruct (keep_masked_position (λ f, bool_decide (name f ∉ names))
              (schema df) c i Hidx) as (j' & Hj' & Hcells).
  { intros f _ <-. by apply bool_decide_eq_true. }
  unfold df_drop in Hd. case_decide; [done|]. injection Hd as <-.
  assert (j = j') as ->.
  { unfold resolve, col_index, columns in Hj. simpl in Hj.
    rewrite Hj' in Hj. simpl in Hj. case_decide; congruence. }
  unfold column_values; simpl. rewrite <- list_fmap_compose.
  apply list_fmap_ext. intros k r Hr. simpl. unfold cell_at.
  rewrite Hcells; [done|].
  unfold rectangular in Hrect. rewrite Forall_forall in Hrect.
  apply Hrect. apply list_elem_of_lookup. eauto.
Qed.

(** X3.  The cell [drop_columns] raises exactly when every column of the
    table is one of the eight listed names.  Otherwise, on a rectangular
    table with distinct column names, it returns the columns that are not
    listed, in their order (a listed name that is no column is ignored); the
    row count stays, the result is rectangular with distinct names, and a
    column that is kept holds, row by row, the values it held. *)
Theorem drop_columns_spec (df : DataFrame) :
  (drop_columns df = None ↔ Forall (λ c, c ∈ drop_cols) (columns df)) ∧
  ∀ d, rectangular df → NoDup (columns df) → drop_columns df = Some d →
    columns d = filter (λ c, c ∉ drop_cols) (columns df) ∧
    (∀ c, c ∈ drop_cols → c ∉ columns d) ∧
    count d = count df ∧
    rectangular d ∧ NoDup (columns d) ∧
    ∀ c i, c ∉ drop_cols → resolve c df = Some i →
      ∃ j, resolve c d = Some j ∧ column_values j d = column_values i df.
Proof.
  split; [apply df_drop_is_None|].
  intros d Hrect Hnd Hd. unfold drop_columns in Hd.
  pose proof (df_drop_columns _ _ _ Hd) as Hcols.
  split; [done|]. split.
  { intros c Hc. rewrite Hcols, list_elem_of_filter. tauto. }
  split.
  { unfold df_drop in Hd. case_decide; [done|]. injection Hd as <-.
    unfold count; simpl. by rewrite length_fmap. }
  split; [by eapply df_drop_rectangular|].
  split; [rewrite Hcols; by apply NoDup_filter|].
  intros c i Hc Hi. by eapply df_drop_column_values.
Qed.

Lemma drop_columns_spec_witness :
  rectangular raw_df ∧ NoDup (columns raw_df) ∧
  ∃ d, drop_columns raw_df = Some d ∧
       columns d = ["REGION"; "PRICE"; "MODEL"] ∧ count d = 4.
Proof.
  assert (H1 : rectangular raw_df) by (repeat constructor).
  assert (H2 : NoDup (columns raw_df)) by by_evaluation.
  assert (H3 : drop_columns raw_df = Some _) by (vm_compute; reflexivity).
  destruct (drop_columns_spec raw_df) as [_ H].
  destruct (H _ H1 H2 H3) as (Hc & _ & Hn & _).
  split; [exact H1|]. split; [exact H2|]. eexists.
  split; [exact H3|]. split; [exact Hc | exact Hn].
Defined.

(** ** The fill step, again *)

(** The column lists of the fill step are read off the schema alone. *)
Lemma resolve_schema c d1 d2 :
  schema d1 = schema d2 → resolve c d1 = resolve c d2.
Proof. intros H. unfold resolve, col_index, columns. by rewrite H. Qed.

Lemma df_select_columns_schema names d1 d2 :
  schema d1 = schema d2 →
  (schema <$> df_select names d1) = (schema <$> df_select names d2).
Proof.
  intros H. unfold df_select.
  assert (mapM (λ c, resolve c d1) names = mapM (λ c, resolve c d2) names)
    as ->.
  { induction names as [|c names IH]; [done|]. simpl.
    by rewrite (resolve_schema c d1 d2 H), IH. }
  destruct (mapM _ names); simpl; [|done]. by rewrite H.
Qed.

Lemma string_cols_schema d1 d2 :
  schema d1 = schema d2 → string_cols d1 = string_cols d2.
Proof.
  intros H. unfold string_cols, string_type.
  pose proof (df_select_columns_schema ["REGION"] d1 d2 H) as Hr.
  destruct (df_select ["REGION"] d1) as [r1|],
           (df_select ["REGION"] d2) as [r2|]; simpl in *; try done.
  injection Hr as ->. destruct (head (schema r2)) as [f|]; simpl; [|done].
  rewrite H.
  pose proof (df_select_columns_schema
    (name <$> filter (λ g, datatype g = datatype f) (schema d2)) d1 d2 H) as Hs.
  unfold columns.
  destruct (df_select _ d1) as [s1|], (df_select _ d2) as [s2|];
    simpl in *; try done.
  by injection Hs as ->.
Qed.

Lemma non_string_cols_schema d1 d2 :
  schema d1 = schema d2 → non_string_cols d1 = non_string_cols d2.
Proof.
  intros H. unfold non_string_cols. rewrite (string_cols_schema d1 d2 H).
  destruct (string_cols d2) as [sc|]; simpl; [|done].
  unfold df_drop, columns. rewrite H. by case_decide.
Qed.

Lemma fill_null_unfold df :
  fill_null df =
  sc ← string_cols df; nsc ← non_string_cols df;
  if decide (Forall (λ c, c ∈ columns df) sc ∧
             Forall (λ c, c ∈ columns df) nsc)
  then Some (fill_both sc nsc df) else None.
Proof.
  unfold fill_null.
  destruct (string_cols df) as [sc|]; simpl; [|done].
  destruct (non_string_cols df) as [nsc|]; simpl; [|done].
  unfold fillna. destruct (decide (Forall _ sc)) as [H1|H1]; simpl.
  2:{ rewrite decide_False; [done|tauto]. }
  unfold columns at 1; simpl. fold (columns df).
  destruct (decide (Forall _ nsc)) as [H2|H2].
  2:{ rewrite decide_False; [done|tauto]. }
  rewrite decide_True by done. unfold fill_both. f_equal. simpl. f_equal.
  rewrite <- list_fmap_compose. apply list_fmap_ext. intros k r _. simpl.
  apply list_eq. intros j. rewrite !list_lookup_imap.
  destruct (r !! j) as [c|]; simpl; [|done]. by destruct (schema df !! j).
Qed.

Lemma fill_cell_present value subset f x :
  fill_cell value subset f (Some x) = Some x.
Proof. unfold fill_cell. case_decide; [|done]. by destruct (lit_matches _ _). Qed.

Lemma fill_cell_twice sc nsc f c :
  let F := λ c, fill_cell (PyInt 0) nsc f (fill_cell (PyStr "NA") sc f c) in
  F (F c) = F c.
Proof.
  destruct c as [x|]; simpl; [by rewrite !fill_cell_present|].
  destruct (fill_cell (PyStr "NA") sc f None) as [a|] eqn:E1.
  { by rewrite !fill_cell_present. }
  destruct (fill_cell (PyInt 0) nsc f None) as [b|] eqn:E2.
  { by rewrite !fill_cell_present. }
  by rewrite E1, E2.
Qed.

(** X4.  When the fill step succeeds it keeps the schema, the number of rows
    and the length of every row, and it never touches an entry that is
    present: only missing entries are written.  Run again on its own result
    it returns that result unchanged. *)
Theorem fill_null_idempotent (df d : DataFrame) :
  fill_null df = Some d →
  schema d = schema df ∧
  count d = count df ∧
  (∀ k r, rows df !! k = Some r →
     ∃ r', rows d !! k = Some r' ∧ length r' = length r ∧
           ∀ j x, r !! j = Some (Some x) → r' !! j = Some (Some x)) ∧
  fill_null d = Some d.
Proof.
  rewrite fill_null_unfold.
  destruct (string_cols df) as [sc|] eqn:Hsc; simpl; [|done].
  destruct (non_string_cols df) as [nsc|] eqn:Hnsc; simpl; [|done].
  case_decide as Hall; [|done]. intros [= <-].
  split; [done|]. split; [unfold count; simpl; by rewrite length_fmap|].
  split.
  - intros k r Hr. simpl. rewrite list_lookup_fmap, Hr. simpl.
    eexists. split; [done|]. split; [by rewrite length_imap|].
    intros j x Hx. rewrite list_lookup_imap, Hx. simpl.
    destruct (schema df !! j); [|done]. by rewrite !fill_cell_present.
  - rewrite fill_null_unfold.
    rewrite (string_cols_schema (fill_both sc nsc df) df) by done.
    rewrite (non_string_cols_schema (fill_both sc nsc df) df) by done.
    rewrite Hsc, Hnsc. simpl. rewrite decide_True by done.
    f_equal. unfold fill_both at 1 3. simpl. f_equal.
    rewrite <- list_fmap_compose. apply list_fmap_ext. intros k r _. simpl.
    apply list_eq. intros j. rewrite !list_lookup_imap.
    destruct (r !! j) as [c|]; simpl; [|done].
    destruct (schema df !! j) as [f|]; [|done].
    f_equal. apply fill_cell_twice.
Qed.

Lemma fill_null_idempotent_witness :
  ∃ d, fill_null flagged_df = Some d ∧ fill_null d = Some d.
Proof.
  eexists.
  assert (H : fill_null flagged_df = Some _) by (vm_compute; reflexivity).
  split; [exact H|]. by apply (fill_null_idempotent flagged_df).
Defined.

(** X5.  When the column lists of the fill step are computed, REGION names
    exactly one column, [string_cols] is the list of the columns that have
    REGION's type, in schema order, so it contains REGION and is never
    empty (it is what the encoder later receives as its input columns), and
    [non_string_cols] is the list of the remaining columns: it is not empty
    and every column is in exactly one of the two lists. *)
Theorem string_cols_spec (df : DataFrame) (sc : list string) :
  string_cols df = Some sc →
  ∃ i f,
    resolve "REGION" df = Some i ∧ schema df !! i = Some f ∧
    sc = name <$> filter (λ g, datatype g = datatype f) (schema df) ∧
    "REGION" ∈ sc ∧
    ∀ nsc, non_string_cols df = Some nsc →
      nsc = filter (λ c, c ∉ sc) (columns df) ∧ nsc ≠ [] ∧
      ("REGION" ∉ nsc) ∧
      ∀ c, c ∈ columns df → (c ∈ nsc ↔ c ∉ sc).
Proof.
  intros Hsc. pose proof Hsc as Hsc'. unfold string_cols in Hsc.
  destruct (string_type df) as [t|] eqn:Ht; [|done]. simpl in Hsc.
  unfold string_type, df_select in Ht. simpl in Ht.
  destruct (resolve "REGION" df) as [i|] eqn:Hi; [|done]. simpl in Ht.
  destruct (resolve_field _ _ _ Hi) as (f & Hf & Hn).
  rewrite Hf in Ht. simpl in Ht. injection Ht as <-.
  destruct (df_select _ df) as [s|] eqn:Hs; [|done]. simpl in Hsc.
  injection Hsc as <-. rewrite (df_select_columns _ _ _ Hs).
  assert (Hreg : "REGION" ∈
            name <$> filter (λ g, datatype g = datatype f) (schema df)).
  { apply list_elem_of_fmap. exists f. split; [done|].
    apply list_elem_of_filter. split; [done|].
    apply list_elem_of_lookup. eauto. }
  exists i, f. split; [done|]. split; [done|]. split; [done|].
  split; [done|].
  intros nsc Hnsc. unfold non_string_cols in Hnsc. rewrite Hsc' in Hnsc.
  simpl in Hnsc. rewrite (df_select_columns _ _ _ Hs) in Hnsc.
  destruct (df_drop _ df) as [d|] eqn:Hd; [|done]. injection Hnsc as <-.
  pose proof (df_drop_columns _ _ _ Hd) as Hcols.
  split; [done|]. split.
  { unfold df_drop in Hd. case_decide as Hk; [done|]. injection Hd as <-.
    unfold columns; simpl. intros E. apply Hk.
    by apply fmap_nil_inv in E. }
  split.
  { rewrite Hcols, list_elem_of_filter. tauto. }
  intros c Hc. rewrite Hcols, list_elem_of_filter. tauto.
Qed.

Lemma string_cols_spec_witness :
  string_cols flagged_df = Some ["REGION"] ∧
  non_string_cols flagged_df = Some ["PRICE"; "SALVAGE"] ∧
  ∃ i f, resolve "REGION" flagged_df = Some i ∧ schema flagged_df !! i = Some f.
Proof.
  assert (H : string_cols flagged_df = Some ["REGION"]) by reflexivity.
  destruct (string_cols_spec flagged_df _ H) as (i & f & H1 & H2 & _).
  split; [exact H|]. split; [reflexivity|]. eauto.
Defined.

(** ** The Cleaner as a whole *)

Lemma fill_null_rows df d :
  fill_null df = Some d →
  schema d = schema df ∧ length (rows d) = length (rows df) ∧
  ∀ k r, rows df !! k = Some r →
    ∃ r', rows d !! k = Some r' ∧
          ∀ j x, cell_at r j = Some x → cell_at r' j = Some x.
Proof.
  rewrite fill_null_unfold.
  destruct (string_cols df) as [sc|]; simpl; [|done].
  destruct (non_string_cols df) as [nsc|]; simpl; [|done].
  case_decide; [|done]. intros [= <-]. simpl.
  split; [done|]. split; [by rewrite length_fmap|].
  intros k r Hr. rewrite list_lookup_fmap, Hr. simpl.
  eexists. split; [done|]. intros j x. unfold cell_at.
  rewrite list_lookup_imap. destruct (r !! j) as [c|]; simpl; [|done].
  intros ->. destruct (schema df !! j); [|done]. by rewrite !fill_cell_present.
Qed.

Lemma column_values_present j df d :
  length (rows d) = length (rows df) →
  (∀ k r, rows df !! k = Some r →
     ∃ r', rows d !! k = Some r' ∧
           ∀ x, cell_at r j = Some x → cell_at r' j = Some x) →
  (∀ c, c ∈ column_values j df → is_Some c) →
  column_values j d = column_values j df.
Proof.
  intros Hlen Hrows Hpres. apply list_eq. intros k.
  rewrite !column_values_lookup.
  destruct (rows df !! k) as [r|] eqn:Hr.
  - destruct (Hrows k r Hr) as (r' & -> & Hcell). simpl. f_equal.
    destruct (Hpres (cell_at r j)) as [x Hx].
    { apply list_elem_of_lookup. exists k.
      by rewrite column_values_lookup, Hr. }
    by rewrite Hx, (Hcell x Hx).
  - apply lookup_ge_None in Hr. rewrite <- Hlen in Hr.
    apply lookup_ge_None in Hr. by rewrite Hr.
Qed.

(** X6.  The Cleaner (filter, drop, fill in sequence) on a rectangular table
    with distinct column names: when it succeeds, PRICE is still a column,
    there are no more rows than before, and in every row the PRICE is
    present and strictly below 100000.  The fill step writes no PRICE at
    all: the PRICE column of the result is, entry by entry, the PRICE column
    the filter left, so a price of 0 in the result was 0 in the table. *)
Theorem cleaner_price (df out : DataFrame) :
  rectangular df → NoDup (columns df) →
  cleaner df = Some out →
  ∃ df1 i j,
    filter_to_100k df = Some df1 ∧
    resolve "PRICE" df = Some i ∧ resolve "PRICE" out = Some j ∧
    (count out ≤ count df)%nat ∧
    column_values j out = column_values i df1 ∧
    ∀ r, r ∈ rows out →
      ∃ p, cell_at r j = Some (VLong p) ∧ (p < 100000)%Z.
Proof.
  intros Hrect Hnd. unfold cleaner.
  destruct (filter_to_100k df) as [df1|] eqn:H1; [|done]. simpl.
  destruct (drop_columns df1) as [df2|] eqn:H2; [|done]. simpl.
  intros H3.
  destruct (resolve "PRICE" df) as [i|] eqn:Hi;
    [|unfold filter_to_100k in H1; by rewrite Hi in H1].
  pose proof (filter_to_100k_rows _ _ _ Hi H1) as Hrows1.
  assert (Hs1 : schema df1 = schema df).
  { unfold filter_to_100k in H1. rewrite Hi in H1. by injection H1 as <-. }
  assert (Hrect1 : rectangular df1).
  { unfold rectangular in *. rewrite Hs1. rewrite Forall_forall in *.
    intros r Hr. apply Hrect. by apply Hrows1. }
  assert (Hnd1 : NoDup (columns df1)) by (unfold columns; by rewrite Hs1).
  assert (Hi1 : resolve "PRICE" df1 = Some i)
    by (by rewrite (resolve_schema _ df1 df)).
  assert (Hp : "PRICE" ∉ drop_cols) by by_evaluation.
  destruct (df_drop_column_values _ _ _ _ _ Hnd1 Hrect1 H2 Hp Hi1)
    as (j & Hj2 & Hcol2).
  destruct (fill_null_rows _ _ H3) as (Hs3 & Hlen3 & Hrows3).
  assert (Hpres : ∀ c, c ∈ column_values i df1 →
                       ∃ p, c = Some (VLong p) ∧ (p < 100000)%Z).
  { intros c (r & -> & Hr)%list_elem_of_fmap. by apply Hrows1. }
  assert (Hcol3 : column_values j out = column_values i df1).
  { rewrite <- Hcol2. apply column_values_present; [done| |].
    - intros k r Hr. destruct (Hrows3 k r Hr) as (r' & Hr' & Hcell). eauto.
    - intros c Hc. rewrite Hcol2 in Hc.
      destruct (Hpres c Hc) as (p & -> & _). eauto. }
  exists df1, i, j. split; [done|]. split; [done|].
  split; [by rewrite (resolve_schema _ out df2)|].
  split.
  { unfold count. rewrite Hlen3.
    unfold drop_columns, df_drop in H2. case_decide; [done|].
    injection H2 as <-. simpl. rewrite length_fmap.
    unfold filter_to_100k in H1. rewrite Hi in H1. injection H1 as <-.
    simpl. apply length_filter. }
  split; [done|].
  intros r Hr. apply Hpres. rewrite <- Hcol3.
  apply list_elem_of_fmap. eauto.
Qed.

Lemma cleaner_price_witness :
  rectangular raw_df ∧ NoDup (columns raw_df) ∧
  ∃ out j, cleaner raw_df = Some out ∧ resolve "PRICE" out = Some j ∧
           column_values j out = [Some (VLong 4500); Some (VLong 0)].
Proof.
  assert (H1 : rectangular raw_df) by (repeat constructor).
  assert (H2 : NoDup (columns raw_df)) by by_evaluation.
  assert (H3 : cleaner raw_df = Some _) by (vm_compute; reflexivity).
  destruct (cleaner_price raw_df _ H1 H2 H3)
    as (df1 & i & j & Hf & Hi & Hj & _ & Hcol & _).
  split; [exact H1|]. split; [exact H2|]. eexists _, j.
  split; [exact H3|]. split; [exact Hj|].
  rewrite Hcol. vm_compute in Hf, Hi. injection Hf as <-. injection Hi as <-.
  reflexivity.
Defined.

(** ** The cardinality reducer, again *)

(** X7.  After the reducer the MODEL column has no missing entry (a missing
    model becomes "INFREQUENT") and holds at most 1001 distinct values: the
    values retained, at most 1000, and the sentinel. *)
Theorem infrequent_category_casting_bound (df df' : DataFrame) (i : nat) :
  rectangular df → resolve "MODEL" df = Some i →
  infrequent_category_casting df = Some df' →
  (∀ c, c ∈ column_values i df' → is_Some c) ∧
  (size (list_to_set (column_values i df') : gset (option Value)) ≤ 1001)%nat.
Proof.
  intros Hrect Hi Hdf'.
  rewrite (infrequent_category_casting_column _ _ _ Hrect Hi Hdf').
  set (vals := column_values i df). set (top := top_n_models vals).
  split.
  - intros c (x & -> & _)%list_elem_of_fmap. unfold recode.
    destruct x as [v|]; [case_decide|]; eauto.
  - assert (Hsub : list_to_set (recode top <$> vals) ⊆@{gset (option Value)}
                   list_to_set (Some <$> top) ∪ {[ Some INFREQUENT ]}).
    { intros x. rewrite elem_of_union, !elem_of_list_to_set, elem_of_singleton.
      rewrite elem_of_recode. tauto. }
    apply subseteq_size in Hsub.
    assert (size (list_to_set (Some <$> top) : gset (option Value))
            = length top) as Htop.
    { rewrite size_list_to_set; [by rewrite length_fmap|].
      apply (NoDup_fmap_2 Some), top_n_models_NoDup. }
    pose proof (size_union_alt
      (list_to_set (Some <$> top) : gset (option Value))
      {[ Some INFREQUENT ]}) as Hu.
    assert (size (({[ Some INFREQUENT ]} : gset (option Value)) ∖
                  list_to_set (Some <$> top)) ≤ 1)%nat as Hd.
    { rewrite <- (size_singleton (C := gset (option Value)) (Some INFREQUENT)).
      apply subseteq_size. intros x Hx. apply elem_of_difference in Hx. tauto. }
    pose proof (top_n_models_length vals) as Hlen. fold top in Hlen. lia.
Qed.

Lemma infrequent_category_casting_bound_witness :
  ∃ df', infrequent_category_casting infrequent_model_df = Some df' ∧
         ∀ c, c ∈ column_values 0 df' → is_Some c.
Proof.
  eexists.
  assert (H1 : rectangular infrequent_model_df) by (repeat constructor).
  assert (H2 : resolve "MODEL" infrequent_model_df = Some 0) by reflexivity.
  assert (H3 : infrequent_category_casting infrequent_model_df = Some _)
    by (vm_compute; reflexivity).
  split; [exact H3|].
  apply (infrequent_category_casting_bound infrequent_model_df _ 0 H1 H2 H3).
Defined.





(** ** The volume amplifier, again *)

Lemma concat_replicate_double {A : Type} (n : nat) (l : list A) :
  mjoin (replicate n (l ++ l)) = mjoin (replicate (2 * n) l).
Proof.
  induction n as [|n IH]; [done|].
  replace (2 * S n) with (S (S (2 * n))) by lia.
  rewrite !replicate_S. simpl. by rewrite IH, <- app_assoc.
Qed.

Lemma union_loop_rows idxs df :
  rows (union_loop idxs df) = mjoin (replicate (2 ^ length idxs) (rows df)).
Proof.
  unfold union_loop. revert df.
  induction idxs as [|i idxs IH]; intros df; simpl.
  - by rewrite app_nil_r.
  - rewrite IH. unfold unionAll; simpl.
    rewrite concat_replicate_double. do 2 f_equal.
Qed.

(** X9.  The amplifier only duplicates: after the loop the rows are the
    rows of the input written out [2^k] times in a row, for the cell four
    times; so a row occurs in the output exactly when it occurs in the
    input, and a rectangular table stays rectangular. *)
Theorem increase_data_size_rows (df : DataFrame) :
  (∀ idxs, rows (union_loop idxs df) =
           mjoin (replicate (2 ^ length idxs) (rows df))) ∧
  rows (increase_data_size df) = rows df ++ rows df ++ rows df ++ rows df ∧
  (∀ r, r ∈ rows (increase_data_size df) ↔ r ∈ rows df) ∧
  (rectangular df → rectangular (increase_data_size df)).
Proof.
  assert (Hrows : rows (increase_data_size df) =
                  rows df ++ rows df ++ rows df ++ rows df).
  { unfold increase_data_size. rewrite union_loop_rows. simpl.
    by rewrite app_nil_r. }
  split; [intros idxs; apply union_loop_rows|]. split; [done|].
  split.
  - intros r. rewrite Hrows, !elem_of_app. tauto.
  - unfold rectangular, increase_data_size.
    rewrite union_loop_schema. fold (increase_data_size df).
    rewrite Hrows, !Forall_app. tauto.
Qed.

Lemma increase_data_size_rows_witness :
  rectangular vehicles_df ∧ rectangular (increase_data_size vehicles_df).
Proof.
  assert (H : rectangular vehicles_df) by (repeat constructor).
  split; [exact H|].
  by apply (increase_data_size_rows vehicles_df).
Defined.

(** ** The loop body of the renaming *)

Lemma string_length_app s t :
  String.length (s +:+ t) = String.length s + String.length t.
Proof.
  induction s as [|a s IH]; [done|]. rewrite append_cons. simpl. by rewrite IH.
Qed.

Lemma find_index_app c p rest :
  (∀ j, get j p ≠ Some c) →
  find_index c (p +:+ String c rest) = Some (String.length p).
Proof.
  induction p as [|a p IH]; intros Hp.
  - rewrite append_nil_l. simpl. by rewrite decide_True.
  - rewrite append_cons. simpl. rewrite decide_False.
    + rewrite IH; [done|]. intros j. apply (Hp (S j)).
    + intros ->. by apply (Hp 0).
Qed.

Lemma find_index_free c s :
  (∀ j, get j s ≠ Some c) → find_index c s = None.
Proof.
  induction s as [|a s IH]; intros Hs; [done|]. simpl.
  rewrite decide_False by (intros ->; by apply (Hs 0)).
  rewrite IH; [done|]. intros j. apply (Hs (S j)).
Qed.

Lemma find_index_cons_ne c a s :
  a ≠ c → find_index c (String a s) = S <$> find_index c s.
Proof. intros H. simpl. by rewrite decide_False. Qed.

Lemma substring_prefix p t : substring 0 (String.length p) (p +:+ t) = p.
Proof.
  induction p as [|a p IH]; [by destruct t|].
  rewrite append_cons. simpl. by rewrite IH.
Qed.

(** X10.  What the loop writes for a column.  A name that does not begin
    with a double quote is kept.  For a name that does: when it has an
    underscore, the new name is the text between the opening quote and the
    first underscore, then [__] and the position, so everything from the
    first underscore on (the category, and the rest of a column name that
    itself has an underscore) is dropped; when it has no underscore,
    [find] gives -1 and the slice drops the last character instead. *)
Theorem new_name_cases (n : nat) (p : string) :
  (∀ j, get j p ≠ Some underscore) →
  (∀ rest, new_name n (String dquote (p +:+ String underscore rest))
           = p +:+ "__" +:+ str n) ∧
  (∀ last, last ≠ underscore →
     new_name n (String dquote (p +:+ String last "")) = p +:+ "__" +:+ str n) ∧
  (∀ c, starts_with dquote c = false → new_name n c = c).
Proof.
  intros Hp. split; [|split].
  - intros rest. rewrite new_name_quoted by reflexivity.
    do 2 f_equal. unfold slice, find.
    rewrite (find_index_cons_ne underscore dquote) by done.
    rewrite (find_index_app _ _ _ Hp). cbn [fmap option_fmap option_map].
    cbn [String.length]. rewrite string_length_app. cbn [String.length].
    unfold clamp_index.
    destruct (Z.ltb_spec 1 0); [lia|].
    destruct (Z.ltb_spec (Z.of_nat (S (String.length p))) 0); [lia|].
    replace (Z.to_nat (1 `min` _)) with 1 by lia.
    replace (Z.to_nat _) with (String.length p) by lia.
    simpl. apply substring_prefix.
  - intros last Hlast.
    rewrite new_name_quoted by reflexivity.
    do 2 f_equal. unfold slice, find.
    rewrite (find_index_cons_ne underscore dquote) by done.
    rewrite find_index_free.
    2:{ intros j Hj. destruct (decide (j < String.length p)) as [Hlt|Hge].
        - rewrite <- append_correct1 in Hj by done. by apply (Hp j).
        - pose proof (append_correct2 p (String last "") (j - String.length p))
            as Ha.
          replace (j - String.length p + String.length p) with j in Ha by lia.
          rewrite <- Ha in Hj.
          destruct (j - String.length p) as [|[|?]]; simpl in Hj; congruence. }
    cbn [fmap option_fmap option_map String.length].
    rewrite string_length_app. cbn [String.length].
    unfold clamp_index.
    destruct (Z.ltb_spec 1 0); [lia|].
    destruct (Z.ltb_spec (-1) 0); [|lia].
    replace (Z.to_nat (1 `min` _)) with 1 by lia.
    replace (Z.to_nat _) with (String.length p) by lia.
    simpl. apply substring_prefix.
  - intros c. apply new_name_kept.
Qed.

Lemma new_name_cases_witness :
  (∀ j, get j "TITLE" ≠ Some underscore) ∧
  new_name 7 (String dquote ("TITLE" +:+ String underscore "STATUS_clean"))
    = "TITLE" +:+ "__" +:+ str 7.
Proof.
  assert (H1 : ∀ j, get j "TITLE" ≠ Some underscore).
  { intros [|[|[|[|[|[|j]]]]]]; simpl; discriminate. }
  destruct (new_name_cases 7 "TITLE" H1) as [Ha _].
  split; [exact H1 | exact (Ha "STATUS_clean")].
Defined.

(** ** The renaming dictionary, again *)

(** X11.  The dictionary has one entry per column name and no other key.
    When a name occurs at several positions the later assignment overwrites
    the earlier one: the entry is the name computed at the last position
    where the column name occurs. *)
Theorem renaming_dict_keys (cols : list string) :
  dom (renaming_dict cols) = list_to_set cols ∧
  ∀ n c, cols !! n = Some c → (∀ m, n < m → cols !! m ≠ Some c) →
    renaming_dict cols !! c = Some (new_name n c).
Proof.
  induction cols as [|x cols [IHd IHl]] using rev_ind.
  { split; [|done]. unfold renaming_dict. simpl. by rewrite dom_empty_L. }
  rewrite renaming_dict_snoc. split.
  - rewrite dom_insert_L, IHd, list_to_set_app_L. simpl.
    rewrite (right_id_L ∅ (∪)). apply (comm_L (∪)).
  - intros n c Hn Hlast.
    apply lookup_snoc_Some in Hn as [[Hlt Hn] | [-> ->]].
    + assert (x ≠ c) as Hne.
      { intros ->. apply (Hlast (length cols)); [done|].
        by rewrite list_lookup_middle. }
      rewrite lookup_insert_ne by done. apply IHl; [done|].
      intros m Hm Hc. apply (Hlast m Hm).
      rewrite lookup_app_l; [done|]. by eapply lookup_lt_Some.
    + by rewrite lookup_insert_eq.
Qed.

Lemma renaming_dict_keys_witness :
  renaming_dict ["PRICE"; "YEAR"; "PRICE"] !! "PRICE"
    = Some (new_name 2 "PRICE").
Proof.
  destruct (renaming_dict_keys ["PRICE"; "YEAR"; "PRICE"]) as [_ H].
  apply (H 2 "PRICE"); [reflexivity|].
  intros m Hm. rewrite lookup_ge_None_2; [done|]. simpl. lia.
Defined.

(** ** The renaming cell as a whole *)





(** ** Building the configurations *)

Lemma df_select_singleton_is_Some c df :
  is_Some (df_select [c] df) ↔ is_Some (resolve c df).
Proof.
  unfold df_select. simpl. destruct (resolve c df); simpl.
  - split; eauto.
  - split; intros [? ?]; done.
Qed.

(** X14.  A configuration is built exactly when PRICE names one column of
    the training table and the table has a column with another name; so the
    cell raises when PRICE is missing or ambiguous, and also when PRICE is
    the only column.  One configuration is built exactly when the other
    is. *)
Theorem model_definition_is_Some (train : DataFrame) :
  (is_Some (cpu_snowpark_xgb train) ↔
     is_Some (resolve "PRICE" train) ∧
     ∃ c, c ∈ columns train ∧ c ≠ "PRICE") ∧
  (is_Some (cpu_snowpark_xgb train) ↔ is_Some (gpu_snowpark_xgb train)).
Proof.
  assert (Hdrop : is_Some (df_drop ["PRICE"] train) ↔
                  ∃ c, c ∈ columns train ∧ c ≠ "PRICE").
  { split.
    - intros [d Hd].
      destruct (decide (Forall (λ c, c ∈ ["PRICE"]) (columns train)))
        as [Hall|Hn].
      + apply df_drop_is_None in Hall. congruence.
      + apply not_Forall_Exists in Hn; [|intros c; apply _].
        apply Exists_exists in Hn as (c & Hc & Hne).
        exists c. split; [done|]. intros ->. apply Hne, list_elem_of_here.
    - intros (c & Hc & Hne).
      destruct (df_drop ["PRICE"] train) eqn:E; [eauto|].
      apply df_drop_is_None in E. rewrite Forall_forall in E.
      apply E, list_elem_of_singleton in Hc. done. }
  pose proof (df_select_singleton_is_Some "PRICE" train) as Hsel.
  unfold cpu_snowpark_xgb, gpu_snowpark_xgb. split.
  - rewrite <- Hdrop, <- Hsel.
    destruct (df_drop ["PRICE"] train), (df_select ["PRICE"] train); simpl;
      split; try (intros [? ?]; done); try (intros [[? ?] [? ?]]; done);
      eauto.
  - destruct (df_drop ["PRICE"] train), (df_select ["PRICE"] train); simpl;
      split; intros [? ?]; try done; eauto.
Qed.

(** ** From the cleaned table to the encoder's input *)




(** ** When the cap of the reducer applies *)

(** X16.  When the MODEL column has more than 1000 distinct values the
    reducer retains exactly 1000 of them, at least one entry is recoded, and
    the sentinel "INFREQUENT" is a value of the output column. *)
Theorem infrequent_category_casting_cap (df df' : DataFrame) (i : nat) :
  rectangular df → resolve "MODEL" df = Some i →
  infrequent_category_casting df = Some df' →
  1000 < length (uniques (dropna (column_values i df))) →
  length (top_n_models (column_values i df)) = 1000 ∧
  (∃ v, Some v ∈ column_values i df ∧ v ∉ top_n_models (column_values i df)) ∧
  Some INFREQUENT ∈ column_values i df'.
Proof.
  intros Hrect Hi Hdf' Hmany.
  set (vals := column_values i df) in *.
  assert (Hlen : length (top_n_models vals) = 1000)
    by (rewrite top_n_models_length; lia).
  assert (Hout : ∃ v, Some v ∈ vals ∧ v ∉ top_n_models vals).
  { pose proof (value_counts_keys vals) as Hperm.
    assert (Hnd : NoDup (value_counts vals).*1)
      by (rewrite Hperm; apply NoDup_uniques).
    assert (1000 < length (value_counts vals).*1) as Hl
      by (by rewrite Hperm).
    destruct (lookup_lt_is_Some_2 _ _ Hl) as [v Hv].
    exists v. split.
    - apply elem_of_dropna, elem_of_uniques. rewrite <- Hperm.
      apply list_elem_of_lookup. eauto.
    - unfold top_n_models. intros [k [Hk Hlt]]%elem_of_take.
      pose proof (NoDup_lookup _ _ _ _ Hnd Hk Hv). lia. }
  split; [done|]. split; [done|].
  rewrite (infrequent_category_casting_column _ _ _ Hrect Hi Hdf').
  destruct Hout as (v & Hv & Hnot).
  apply list_elem_of_fmap. exists (Some v). split; [|done].
  simpl. by rewrite decide_False.
Qed.

Lemma uniques_NoDup l : NoDup l → uniques l = l.
Proof.
  induction 1 as [|v l Hv _ IH]; [done|]. simpl. rewrite IH. f_equal.
  clear IH. induction l as [|w l IH]; [done|].
  apply not_elem_of_cons in Hv as [Hne Hv].
  rewrite filter_cons, decide_True by congruence. by rewrite IH.
Qed.

Lemma many_models_values :
  dropna (column_values 0 many_models_df) = (λ n, VString (str n)) <$> seq 0 1001.
Proof.
  unfold column_values, many_models_df; cbn [rows].
  rewrite <- list_fmap_compose. unfold dropna.
  induction (seq 0 1001) as [|n l IH]; [done|].
  rewrite !fmap_cons. cbn [omap list_omap]. by rewrite IH.
Qed.

Lemma infrequent_category_casting_cap_witness :
  ∃ df', infrequent_category_casting many_models_df = Some df' ∧
         length (top_n_models (column_values 0 many_models_df)) = 1000 ∧
         Some INFREQUENT ∈ column_values 0 df'.
Proof.
  assert (H1 : rectangular many_models_df).
  { unfold rectangular. apply Forall_forall. intros r Hr.
    unfold many_models_df in Hr; cbn [rows] in Hr.
    by apply list_elem_of_fmap in Hr as (n & -> & _). }
  assert (H2 : resolve "MODEL" many_models_df = Some 0) by reflexivity.
  assert (H3 : infrequent_category_casting many_models_df =
               Some {| schema := schema many_models_df;
                       rows := (λ r, <[0 := recode
                                  (top_n_models (column_values 0 many_models_df))
                                  (cell_at r 0)]> r) <$> rows many_models_df |}).
  { unfold infrequent_category_casting. by rewrite H2. }
  assert (H4 : 1000 < length (uniques (dropna (column_values 0 many_models_df)))).
  { rewrite many_models_values, uniques_NoDup.
    - rewrite length_fmap, length_seq. lia.
    - apply NoDup_fmap_2; [|apply NoDup_seq].
      intros n m [= H]. by apply str_inj. }
  destruct (infrequent_category_casting_cap _ _ 0 H1 H2 H3 H4) as (Ha & _ & Hb).
  eexists. split; [exact H3|]. split; [exact Ha | exact Hb].
Defined.
